(** * electrum/migration.py: detection and migration of a predecessor data directory

    A shallow embedding of [is_factwallet_data], [perform_migration],
    [MigrationDialog], [run_migration] and [check_for_migration], over a model
    of the part of the file system and of the Python library those functions
    touch.

    Conventions of the model.
    - A path string is modelled by the list of its components;
      [os.path.join d f] appends one component.  The text of a path, needed
      for the log, the marker file and the backup name, is [path_text].
      The tree operations resolve a path component by component, so they
      are the file system's on a path in normal form, [plain_path]: no
      component is empty, [.] or [..], as in a text that does not end in a
      separator.  The statements about where the backup path of the
      dialog and the old directory of portable mode lie have this as a
      hypothesis.
    - The file system is one tree of entries as [os.stat] and [open] see
      them (symbolic links followed): regular files, sockets, directories,
      and dangling symbolic links, the entries on which [os.stat] raises.
      Permissions, devices and other file systems are not modelled, so
      [os.rename] fails for structural reasons only.  A link that resolves
      is stored as the entry it resolves to, and a move carries the entries
      of the moved tree along as they are: this is [os.rename] on every
      entry but a symbolic link whose target the move changes, which may
      dangle at the new place.  The statements that derive a successful
      copy from the state before the move are about a tree that holds no
      symbolic link.
    - Python exceptions are values of [exn]; a computation is a state
      transformer that returns either a value or the raised exception, and
      keeps the state reached when it raises.  The state is the file system
      and the log, which also records the dialog and the message boxes.
      Every exception of the model derives from [Exception]: interrupts
      are not modelled.
    - What the program reads from its environment is an argument: the clock
      readings, the user's choice in the dialog, [os.environ], the results
      of [user_dir()] and [old_user_dir()], and [json.load]. *)

From Stdlib Require Import List String Ascii Bool Arith Lia.
Import ListNotations.
Local Open Scope string_scope.
Local Open Scope list_scope.

Set Warnings "-register-all".

(** ** The file-system tree *)

Definition name := string.
Definition path := list name.

Inductive node : Type :=
| File (data : string)
| Sock
| Dangling
| Dir (entries : list (name * node)).

Fixpoint assoc (n : name) (es : list (name * node)) : option node :=
  match es with
  | [] => None
  | (m, c) :: r => if String.eqb n m then Some c else assoc n r
  end.

(** Replace the entry [n] in place, or add it at the end. *)
Fixpoint upsert (n : name) (v : node) (es : list (name * node))
  : list (name * node) :=
  match es with
  | [] => [(n, v)]
  | (m, c) :: r =>
      if String.eqb n m then (m, v) :: r else (m, c) :: upsert n v r
  end.

Fixpoint delete (n : name) (es : list (name * node)) : list (name * node) :=
  match es with
  | [] => []
  | (m, c) :: r =>
      if String.eqb n m then delete n r else (m, c) :: delete n r
  end.

(** [get t p] is the entry at [p], not following a final dangling link
    (what [os.lstat] sees). *)
Fixpoint get (t : node) (p : path) : option node :=
  match p with
  | [] => Some t
  | n :: q =>
      match t with
      | Dir es => match assoc n es with
                  | Some c => get c q
                  | None => None
                  end
      | _ => None
      end
  end.

(** [put t p v] writes [v] at [p]; the parent of [p] has to be a directory. *)
Fixpoint put (t : node) (p : path) (v : node) : option node :=
  match p with
  | [] => Some v
  | n :: q =>
      match t with
      | Dir es =>
          match (match assoc n es with
                 | Some c => put c q v
                 | None => match q with [] => Some v | _ => None end
                 end) with
          | Some c' => Some (Dir (upsert n c' es))
          | None => None
          end
      | _ => None
      end
  end.

(** [remove t p] unlinks the entry at [p]; the root cannot be removed. *)
Fixpoint remove (t : node) (p : path) : option node :=
  match p with
  | [] => None
  | n :: q =>
      match t with
      | Dir es =>
          match q with
          | [] => match assoc n es with
                  | Some _ => Some (Dir (delete n es))
                  | None => None
                  end
          | _ => match assoc n es with
                 | Some c => match remove c q with
                             | Some c' => Some (Dir (upsert n c' es))
                             | None => None
                             end
                 | None => None
                 end
          end
      | _ => None
      end
  end.

(** [os.makedirs p]: create [p] and the missing directories above it.  A
    component that exists and is not a directory makes it fail; so does an
    existing final component, whatever it is. *)
Fixpoint makedirs (t : node) (p : path) : option node :=
  match p with
  | [] => None
  | n :: q =>
      match t with
      | Dir es =>
          match assoc n es with
          | Some c =>
              match q with
              | [] => None
              | _ => match makedirs c q with
                     | Some c' => Some (Dir (upsert n c' es))
                     | None => None
                     end
              end
          | None =>
              match q with
              | [] => Some (Dir (upsert n (Dir []) es))
              | _ => match makedirs (Dir []) q with
                     | Some c' => Some (Dir (upsert n c' es))
                     | None => None
                     end
              end
          end
      | _ => None
      end
  end.

(** [os.path.exists], [os.path.isdir]: both follow links, so a dangling link
    does not exist. *)
Definition exists_ (t : node) (p : path) : bool :=
  match get t p with
  | Some Dangling | None => false
  | Some _ => true
  end.

Definition isdir (t : node) (p : path) : bool :=
  match get t p with
  | Some (Dir _) => true
  | _ => false
  end.

(** Neither path is a prefix of the other. *)
Fixpoint apart (p q : path) : bool :=
  match p, q with
  | n :: p', m :: q' => if String.eqb n m then apart p' q' else true
  | _, _ => false
  end.

Fixpoint is_prefix (p q : path) : bool :=
  match p, q with
  | [], _ => true
  | n :: p', m :: q' => String.eqb n m && is_prefix p' q'
  | _ :: _, [] => false
  end.

Fixpoint path_eqb (p q : path) : bool :=
  match p, q with
  | [], [] => true
  | n :: p', m :: q' => String.eqb n m && path_eqb p' q'
  | _, _ => false
  end.

(** ** Exceptions and results *)

Inductive oserror : Type :=
| ENOENT      (* FileNotFoundError *)
| EEXIST      (* FileExistsError *)
| ENOTDIR     (* NotADirectoryError *)
| EISDIR      (* IsADirectoryError *)
| ENOTEMPTY
| ENXIO       (* opening a socket *)
| EINVAL.

(** One record of the error list [shutil.copytree] collects. *)
Definition copy_error : Type := (path * path * oserror)%type.

Inductive exn : Type :=
| OSError (e : oserror) (p : path)
| MoveError (msg : string) (p : path)          (* shutil.Error raised by move *)
| CopyError (errs : list copy_error)           (* shutil.Error raised by copytree *)
| UnicodeDecodeError
| JSONDecodeError
| RecursionError
| AttributeError (msg : string)
| KeyError (key : string)
| TypeError (msg : string)
| PlainException (msg : string).

(** [shutil.Error] derives from [OSError]. *)
Definition is_OSError (e : exn) : bool :=
  match e with
  | OSError _ _ | MoveError _ _ | CopyError _ => true
  | _ => false
  end.

(** Every exception of the model derives from [Exception]. *)
Definition is_Exception (e : exn) : bool := true.

Inductive result (A : Type) : Type :=
| Ok (a : A)
| Raise (e : exn).
Arguments Ok {A} a.
Arguments Raise {A} e.

(** ** The Python library on the tree *)

(** [os.stat p], links followed: the kind of the entry, or the error. *)
Definition os_stat (t : node) (p : path) : result node :=
  match get t p with
  | Some Dangling | None => Raise (OSError ENOENT p)
  | Some c => Ok c
  end.

Definition S_ISSOCK (c : node) : bool :=
  match c with Sock => true | _ => false end.

Definition parent (p : path) : path := removelast p.
Definition basename (p : path) : name := last p "".

(** [os.rename src dst].  The entries below [src] move as they are: see
    the conventions for a moved tree that holds symbolic links. *)
Definition os_rename (t : node) (src dst : path) : result node :=
  match get t src with
  | None => Raise (OSError ENOENT src)
  | Some c =>
      match dst with
      | [] => Raise (OSError EEXIST dst)
      | _ =>
          match get t (parent dst) with
          | None => Raise (OSError ENOENT dst)
          | Some (Dir _) =>
              if path_eqb src dst then Ok t
              else if is_prefix src dst then Raise (OSError EINVAL dst)
              else
                let go :=
                  match remove t src with
                  | None => Raise (OSError EINVAL src)
                  | Some t1 =>
                      match put t1 dst c with
                      | Some t2 => Ok t2
                      | None => Raise (OSError ENOENT dst)
                      end
                  end in
                match c, get t dst with
                | _, None => go
                | Dir _, Some (Dir []) => go
                | Dir _, Some (Dir _) => Raise (OSError ENOTEMPTY dst)
                | Dir _, Some _ => Raise (OSError ENOTDIR dst)
                | _, Some (Dir _) => Raise (OSError EISDIR dst)
                | _, Some _ => go
                end
          | Some _ => Raise (OSError ENOTDIR dst)
          end
      end
  end.

(** ** Effects: the state, the log, and the monad *)

Inductive event : Type :=
| LogInfo (msg : string)
| LogError (msg : string) (e : exn)
| Prompt (electrum_dir factwallet_dir : path)     (* MigrationDialog.exec_ *)
| InformationBox (title : string)                 (* QMessageBox.information *)
| CriticalBox (title : string).                   (* QMessageBox.critical *)

Record state : Type := mkState { fs : node; log : list event }.

Definition M (A : Type) : Type := state -> result A * state.

Definition ret {A} (a : A) : M A := fun s => (Ok a, s).
Definition raise {A} (e : exn) : M A := fun s => (Raise e, s).
Definition bind {A B} (m : M A) (k : A -> M B) : M B :=
  fun s => match m s with
           | (Ok a, s') => k a s'
           | (Raise e, s') => (Raise e, s')
           end.
(** [try: m except <classes> as e: h e], the classes given by [catches]. *)
Definition try_catch {A} (catches : exn -> bool) (m : M A) (h : exn -> M A)
  : M A :=
  fun s => match m s with
           | (Ok a, s') => (Ok a, s')
           | (Raise e, s') => if catches e then h e s' else (Raise e, s')
           end.
(** [try: m except Exception as e: h e] *)
Definition try_except {A} (m : M A) (h : exn -> M A) : M A :=
  try_catch is_Exception m h.

Notation "x <- m ;; k" := (bind m (fun x => k))
  (at level 61, m at next level, right associativity).
Notation "m ;;; k" := (bind m (fun _ => k))
  (at level 61, right associativity).

Definition emit (e : event) : M unit :=
  fun s => (Ok tt, mkState (fs s) (log s ++ [e])).
Definition get_fs : M node := fun s => (Ok (fs s), s).
Definition set_fs (t : node) : M unit := fun s => (Ok tt, mkState t (log s)).

Definition path_text (p : path) : string := "/" ++ String.concat "/" p.

(** The copy [shutil.move] falls back to when [os.rename] fails on a
    directory: [copytree src real_dst symlinks=True] into a destination that
    does not exist yet.  Links are recreated, a socket cannot be read. *)
Fixpoint copy_fresh (srcp dstp : path) (c : node)
  : option node * list copy_error :=
  match c with
  | File d => (Some (File d), [])
  | Dangling => (Some Dangling, [])
  | Sock => (None, [(srcp, dstp, ENXIO)])
  | Dir es =>
      let fix loop (es : list (name * node)) : list (name * node) * list copy_error :=
        match es with
        | [] => ([], [])
        | (n, c) :: r =>
            let '(v, e1) := copy_fresh (srcp ++ [n]) (dstp ++ [n]) c in
            let '(ds, e2) := loop r in
            (match v with Some v => (n, v) :: ds | None => ds end, e1 ++ e2)
        end in
      let '(ds, errs) := loop es in
      (Some (Dir ds), errs)
  end.

Definition makedirs_or_raise (p : path) : M unit :=
  t <- get_fs ;;
  match makedirs t p with
  | Some t' => set_fs t'
  | None => raise (OSError (match get t p with Some _ => EEXIST | None => ENOTDIR end) p)
  end.

(** The part of [shutil.move] after [real_dst] is known. *)
Definition move_to (src real_dst dst : path) : M unit :=
  t <- get_fs ;;
  match os_rename t src real_dst with
  | Ok t' => set_fs t'
  | Raise why =>
      match get t src with
      | Some Dangling => raise why
      | Some (Dir es) =>
          if is_prefix src dst then
            raise (MoveError "Cannot move a directory into itself" dst)
          else
            makedirs_or_raise real_dst ;;;
            t1 <- get_fs ;;
            match copy_fresh src real_dst (Dir es) with
            | (Some v, errs) =>
                match put t1 real_dst v with
                | Some t2 =>
                    set_fs t2 ;;;
                    match errs with
                    | [] => match remove t2 src with
                            | Some t3 => set_fs t3
                            | None => raise (OSError ENOENT src)
                            end
                    | _ => raise (CopyError errs)
                    end
                | None => raise (OSError ENOENT real_dst)
                end
            | (None, errs) => raise (CopyError errs)
            end
      | Some Sock => raise (OSError ENXIO src)
      | Some (File _) => raise why
      | None => raise (OSError ENOENT src)
      end
  end.

(** [shutil.move src dst]. *)
Definition shutil_move (src dst : path) : M unit :=
  t <- get_fs ;;
  if isdir t dst then
    if path_eqb src dst then ret tt
    else
      let real_dst := dst ++ [basename src] in
      if exists_ t real_dst then
        raise (MoveError "Destination path already exists" real_dst)
      else move_to src real_dst dst
  else move_to src dst dst.

(** Modelled from the spec: [make_dir] of [electrum/util.py], which is not
    among the sources.  "Create target directory (and any missing parent
    directories)"; directory creation tolerates a path that exists already. *)
Definition make_dir (p : path) : M unit :=
  t <- get_fs ;;
  if exists_ t p then ret tt else makedirs_or_raise p.

(** ** [shutil.copytree src dst dirs_exist_ok=True ignore=...] *)

Definition mem (n : name) (l : list name) : bool := existsb (String.eqb n) l.

Section Copytree.

(** The [ignore] callback, and the tree it stats: the file system as it
    is when the copy starts.  The library stats while it walks; the two
    agree as long as the destination is not inside the source. *)
Variable ignore : node -> path -> list name -> list name.
Variable t0 : node.

(** [shutil.copy2] of a regular file with contents [d] onto the entry
    [old] at [dstp]: a directory receives the file under the source's
    base name, a link is written through.  Source and destination are
    two files: the library refuses to copy a file onto itself, which can
    only be asked for when the destination tree overlaps the source tree. *)
Definition copy2_file (srcp dstp : path) (d : string) (old : option node)
  : option node * list copy_error :=
  match old with
  | None | Some (File _) | Some Dangling => (Some (File d), [])
  | Some Sock => (None, [(srcp, dstp, ENXIO)])
  | Some (Dir cs) =>
      match assoc (basename srcp) cs with
      | None | Some (File _) | Some Dangling =>
          (Some (Dir (upsert (basename srcp) (File d) cs)), [])
      | Some Sock => (None, [(srcp, dstp, ENXIO)])
      | Some (Dir _) => (None, [(srcp, dstp, EISDIR)])
      end
  end.

(** One entry [c] at [srcp] copied onto [old] at [dstp]: the new entry to
    store at [dstp] (none: leave it alone) and the errors collected. *)
Fixpoint copytree_node (srcp dstp : path) (c : node) (old : option node)
  : option node * list copy_error :=
  match c with
  | File d => copy2_file srcp dstp d old
  | Sock => (None, [(srcp, dstp, ENXIO)])
  | Dangling => (None, [(srcp, dstp, ENOENT)])
  | Dir es =>
      match old with
      | Some (File _) | Some Sock | Some Dangling =>
          (None, [(srcp, dstp, EEXIST)])       (* os.makedirs(dst, exist_ok=True) *)
      | _ =>
          let ignored_names := ignore t0 srcp (map fst es) in
          let fix loop (es : list (name * node)) (ds : list (name * node))
            : list (name * node) * list copy_error :=
            match es with
            | [] => (ds, [])
            | (n, c) :: r =>
                if mem n ignored_names then loop r ds
                else
                  let '(v, e1) :=
                    copytree_node (srcp ++ [n]) (dstp ++ [n]) c (assoc n ds) in
                  let '(ds2, e2) :=
                    loop r (match v with Some v => upsert n v ds | None => ds end) in
                  (ds2, e1 ++ e2)
            end in
          let '(ds', errs) :=
            loop es (match old with Some (Dir ds) => ds | _ => [] end) in
          (Some (Dir ds'), errs)
      end
  end.

End Copytree.

(** The copy proper, once the entries [es] of [src] are listed and [dst]
    is a directory: write the merged tree, then raise the errors collected. *)
Definition copytree_into (ignore : node -> path -> list name -> list name)
  (t : node) (src dst : path) (es : list (name * node)) : M unit :=
  t1 <- get_fs ;;
  match copytree_node ignore t src dst (Dir es) (get t1 dst) with
  | (Some v, errs) =>
      match put t1 dst v with
      | Some t2 =>
          set_fs t2 ;;;
          match errs with
          | [] => ret tt
          | _ => raise (CopyError errs)
          end
      | None => raise (OSError ENOENT dst)
      end
  | (None, errs) => raise (CopyError errs)
  end.

Definition shutil_copytree (ignore : node -> path -> list name -> list name)
  (src dst : path) : M unit :=
  t <- get_fs ;;
  match get t src with
  | Some (Dir es) =>
      match get t dst with
      | Some (Dir _) => ret tt
      | Some _ => raise (OSError EEXIST dst)
      | None => makedirs_or_raise dst
      end ;;;
      copytree_into ignore t src dst es
  | Some Dangling | None => raise (OSError ENOENT src)
  | Some _ => raise (OSError ENOTDIR src)
  end.

(** [with open(p, 'w') as f: f.write(data)] *)
Definition write_file (p : path) (data : string) : M unit :=
  t <- get_fs ;;
  match get t p with
  | Some (Dir _) => raise (OSError EISDIR p)
  | Some Sock => raise (OSError ENXIO p)
  | _ =>
      match p, get t (parent p) with
      | _ :: _, Some (Dir _) =>
          match put t p (File data) with
          | Some t' => set_fs t'
          | None => raise (OSError ENOENT p)
          end
      | _, Some _ => raise (OSError ENOTDIR p)
      | _, None => raise (OSError ENOENT p)
      end
  end.

(** ** [datetime] *)

Record datetime : Type := mkDatetime {
  year : nat; month : nat; day : nat;
  hour : nat; minute : nat; second : nat; microsecond : nat }.

Fixpoint digits_fuel (fuel n : nat) (acc : string) : string :=
  match fuel with
  | 0 => acc
  | S f =>
      let acc' := String (ascii_of_nat (48 + n mod 10)) acc in
      if Nat.eqb (n / 10) 0 then acc' else digits_fuel f (n / 10) acc'
  end.

(** Decimal numeral of [n]. *)
Definition decimal (n : nat) : string := digits_fuel (S n) n "".

Fixpoint zeros (k : nat) : string :=
  match k with 0 => "" | S k' => String "0" (zeros k') end.

(** ["%0kd" % n] *)
Definition pad (k n : nat) : string :=
  let s := decimal n in zeros (k - String.length s) ++ s.

(** [strftime("%Y%m%d%H%M%S")] *)
Definition strftime_compact (d : datetime) : string :=
  pad 4 (year d) ++ pad 2 (month d) ++ pad 2 (day d)
  ++ pad 2 (hour d) ++ pad 2 (minute d) ++ pad 2 (second d).

(** [isoformat()] of a naive datetime: the microseconds are left out when
    they are zero. *)
Definition isoformat (d : datetime) : string :=
  pad 4 (year d) ++ "-" ++ pad 2 (month d) ++ "-" ++ pad 2 (day d) ++ "T"
  ++ pad 2 (hour d) ++ ":" ++ pad 2 (minute d) ++ ":" ++ pad 2 (second d)
  ++ (if Nat.eqb (microsecond d) 0 then "" else "." ++ pad 6 (microsecond d)).

(** ** [perform_migration] *)

(** The [ignore] callback of step 3. *)
Fixpoint ignore_sockets (t : node) (dir : path) (files : list name) : list name :=
  match files with
  | [] => []
  | f :: r =>
      let file_path := dir ++ [f] in
      match os_stat t file_path with
      | Ok st => if S_ISSOCK st then f :: ignore_sockets t dir r
                 else ignore_sockets t dir r
      | Raise _ => ignore_sockets t dir r     (* let files we can't identify pass *)
      end
  end.

Definition marker_name : name := ".migrated_from_electrum".

Definition marker_text (electrum_dir backup_dir factwallet_dir : path)
  (now : datetime) : string :=
  "Migrated from `" ++ path_text electrum_dir ++ "` (backup: `"
  ++ path_text backup_dir ++ "`) to `" ++ path_text factwallet_dir ++ "` on "
  ++ isoformat now.

(** The two informational log lines. *)
Definition msg_moving (electrum_dir backup_dir : path) : string :=
  "Moving " ++ path_text electrum_dir ++ " to " ++ path_text backup_dir.
Definition msg_copying (backup_dir factwallet_dir : path) : string :=
  "Copying from " ++ path_text backup_dir ++ " to " ++ path_text factwallet_dir.

(** The body of the [try] block; [now] is what [datetime.datetime.now()]
    returns when the marker is written. *)
Definition migration_steps (now : datetime)
  (electrum_dir backup_dir factwallet_dir : path) : M bool :=
  (* 1. move the old wallet directory to the backup location *)
  emit (LogInfo (msg_moving electrum_dir backup_dir)) ;;;
  shutil_move electrum_dir backup_dir ;;;
  (* 2. create the new directory *)
  make_dir factwallet_dir ;;;
  (* 3. copy everything but sockets from the backup *)
  emit (LogInfo (msg_copying backup_dir factwallet_dir)) ;;;
  shutil_copytree ignore_sockets backup_dir factwallet_dir ;;;
  (* 4. write the marker file *)
  let marker_path := factwallet_dir ++ [marker_name] in
  write_file marker_path
    (marker_text electrum_dir backup_dir factwallet_dir now) ;;;
  ret true.

Definition perform_migration (now : datetime)
  (electrum_dir backup_dir factwallet_dir : path) : M bool :=
  try_except
    (migration_steps now electrum_dir backup_dir factwallet_dir)
    (fun e => emit (LogError "Migration failed" e) ;;; ret false).

(** ** [MigrationDialog] and [run_migration] *)

(** [f"{electrum_dir}-backupByFactWallet-{when}"]: the text is extended,
    so the suffix extends the last component of the path.  For a text that
    ends in a separator the last component is the empty one, and the result
    names an entry of the source directory. *)
Definition add_suffix (p : path) (s : string) : path :=
  match p with
  | [] => [s]
  | _ => removelast p ++ [(last p "" ++ s)%string]
  end.

Definition dialog_backup_dir (electrum_dir : path) (when : datetime) : path :=
  add_suffix electrum_dir ("-backupByFactWallet-" ++ strftime_compact when).

(** What the user does with the dialog: presses "Yes, migrate my wallet",
    or leaves it by "No, create a new wallet" or by closing the window. *)
Inductive choice : Type := Migrate | Skip.

Inductive dialog_code : Type := Accepted | Rejected.

Record dialog : Type := mkDialog {
  d_electrum_dir : path; d_factwallet_dir : path; d_backup_dir : path;
  d_result : bool; d_error : bool }.

Definition MigrationDialog_init (electrum_dir factwallet_dir : path)
  (when : datetime) : dialog :=
  mkDialog electrum_dir factwallet_dir (dialog_backup_dir electrum_dir when)
           false false.

Definition do_migrate (now : datetime) (self : dialog) : M (dialog * dialog_code) :=
  ok <- perform_migration now (d_electrum_dir self) (d_backup_dir self)
                          (d_factwallet_dir self) ;;
  if ok : bool then
    emit (InformationBox "Migration Complete") ;;;
    ret (mkDialog (d_electrum_dir self) (d_factwallet_dir self)
                  (d_backup_dir self) true (d_error self), Accepted)
  else
    emit (CriticalBox "Migration Failed") ;;;
    ret (mkDialog (d_electrum_dir self) (d_factwallet_dir self)
                  (d_backup_dir self) (d_result self) true, Rejected).

(** [dialog.exec_()] *)
Definition exec_ (c : choice) (now : datetime) (self : dialog)
  : M (dialog * dialog_code) :=
  emit (Prompt (d_electrum_dir self) (d_factwallet_dir self)) ;;;
  match c with
  | Migrate => do_migrate now self
  | Skip => ret (self, Rejected)
  end.

Definition is_accepted (c : dialog_code) : bool :=
  match c with Accepted => true | Rejected => false end.

(** [when] and [now] are the two readings of the clock, [c] the user's
    choice. *)
Definition run_migration (c : choice) (when now : datetime)
  (electrum_dir factwallet_dir : path) : M bool :=
  try_except
    (let dialog := MigrationDialog_init electrum_dir factwallet_dir when in
     r <- exec_ c now dialog ;;
     let '(dialog, code) := r in
     let result := is_accepted code && d_result dialog in
     if d_error dialog then raise (PlainException "Error during wallet migration")
     else
       (if result then
          emit (LogInfo ("Successfully migrated data from "
                         ++ path_text electrum_dir ++ " to "
                         ++ path_text factwallet_dir))
        else emit (LogInfo "User skipped migration")) ;;;
       ret true)
    (fun e => emit (LogError "Error during migration" e) ;;; raise e).

(** ** [is_factwallet_data] *)

(** What [json.load] returns. *)
Inductive json : Type :=
| JNull
| JBool (b : bool)
| JNum (literal : string)
| JStr (s : string)
| JArr (items : list json)
| JObj (members : list (string * json)).

Fixpoint member (k : string) (ms : list (string * json)) : option json :=
  match ms with
  | [] => None
  | (k', v) :: r => if String.eqb k k' then Some v else member k r
  end.

(** [obj.get(key, default)]: only a dict has the method. *)
Definition py_get (obj : json) (key : string) (default : json) : M json :=
  match obj with
  | JObj ms => ret (match member key ms with Some v => v | None => default end)
  | _ => raise (AttributeError "object has no attribute 'get'")
  end.

Definition FACT_MAINNET_GENESIS : string :=
  "79cb40f8075b0e3dc2bc468c5ce2a7acbe0afd36c6c3d3a134ea692edac7de49".
Definition FACT_TESTNET_GENESIS : string :=
  "550bbf0a444d9f92189f067dd225f5b8a5d92587ebc2e8398d143236072580af".

(** [v in l] for a list of strings [l]: [v == s] holds for a [str] only. *)
Definition py_in (v : json) (l : list string) : bool :=
  match v with
  | JStr s => existsb (String.eqb s) l
  | _ => false
  end.

(** [open(p, 'r')] followed by reading all of it. *)
Definition read_file (p : path) : M string :=
  t <- get_fs ;;
  match get t p with
  | Some (File d) => ret d
  | Some (Dir _) => raise (OSError EISDIR p)
  | Some Sock => raise (OSError ENXIO p)
  | Some Dangling | None => raise (OSError ENOENT p)
  end.

Definition catches_json_or_os (e : exn) : bool :=
  match e with
  | JSONDecodeError => true
  | _ => is_OSError e
  end.

Section Detector.

(** [json.load] on a text file opened with [encoding='utf-8'], as a
    function of the bytes of the file: the value, or one of
    [UnicodeDecodeError], [JSONDecodeError], [RecursionError]. *)
Variable json_load : string -> result json.

Definition is_factwallet_data (directory : path) : M bool :=
  t <- get_fs ;;
  if negb (exists_ t directory) then ret false
  else
    let config_path := directory ++ ["config"] in
    found <-
      (if exists_ t config_path then
         try_catch catches_json_or_os
           (data <- read_file config_path ;;
            match json_load data with
            | Raise e => raise e
            | Ok config =>
                blockchain_preferred_block <-
                  py_get config "blockchain_preferred_block" (JObj []) ;;
                block_hash <- py_get blockchain_preferred_block "hash" JNull ;;
                ret (py_in block_hash [FACT_MAINNET_GENESIS; FACT_TESTNET_GENESIS])
            end)
           (fun _ => ret false)
       else ret false) ;;
    ret found.

End Detector.

(** ** [check_for_migration] *)

(** The values the options dictionary holds: [None], a bool, or a non-empty
    [str] read as a path. *)
Inductive pyval : Type :=
| PNone
| PBool (b : bool)
| PStr (p : path).

Definition truthy (v : pyval) : bool :=
  match v with
  | PNone => false
  | PBool b => b
  | PStr _ => true
  end.

Definition dict : Type := list (string * pyval).

Fixpoint dict_lookup (k : string) (d : dict) : option pyval :=
  match d with
  | [] => None
  | (k', v) :: r => if String.eqb k k' then Some v else dict_lookup k r
  end.

(** [str(v)], as an f-string prints it. *)
Definition py_str (v : pyval) : string :=
  match v with
  | PNone => "None"
  | PBool true => "True"
  | PBool false => "False"
  | PStr p => path_text p
  end.

(** [d.get(k, default)] *)
Definition dict_get (d : dict) (k : string) (default : pyval) : pyval :=
  match dict_lookup k d with Some v => v | None => default end.

(** [d[k]] *)
Definition dict_item (d : dict) (k : string) : M pyval :=
  match dict_lookup k d with
  | Some v => ret v
  | None => raise (KeyError k)
  end.

(** [os.path.dirname v]: the text up to the last separator, so the path
    without its last component; for a text that ends in a separator that
    component is the empty one. *)
Definition os_path_dirname (v : pyval) : M path :=
  match v with
  | PStr p => ret (parent p)
  | _ => raise (TypeError "expected str, bytes or os.PathLike object")
  end.

(** A path argument of [os.path.exists]. *)
Definition as_path (v : pyval) : M path :=
  match v with
  | PStr p => ret p
  | _ => raise (TypeError "expected str, bytes or os.PathLike object")
  end.

Section Orchestrator.

Variable json_load : string -> result json.
(** ['ANDROID_DATA' in os.environ] *)
Variable android : bool.
(** What [user_dir()] and [old_user_dir()] of [electrum/util.py] return;
    the latter may be [None]. *)
Variable user_dir : path.
Variable old_user_dir : option path.

(** "Locate data directories": the new directory and the old one. *)
Definition locate_dirs (config_options : dict) (is_portable : pyval)
  : M (path * option path) :=
  if truthy is_portable then
    v <- dict_item config_options "electrum_path" ;;
    v' <- dict_item config_options "electrum_path" ;;
    d <- os_path_dirname v' ;;
    factwallet_dir <- as_path v ;;
    ret (factwallet_dir, Some (d ++ ["electrum_data"]))
  else ret (user_dir, old_user_dir).

(** [c], [when], [now]: the user's choice and the clock readings, used if
    the dialog is shown. *)
Definition check_for_migration (c : choice) (when now : datetime)
  (config_options : option dict) : M unit :=
  match config_options with
  | None => raise (AttributeError "'NoneType' object has no attribute 'get'")
  | Some opts =>
      let is_portable := dict_get opts "portable" (PBool false) in
      if android then
        emit (LogInfo "Skipping migration check on Android")
      else if (match opts with [] => false | _ => true end)
              && truthy (dict_get opts "electrum_path" PNone)
              && negb (truthy is_portable) then
        emit (LogInfo ("Custom data directory specified: "
                       ++ py_str (dict_get opts "electrum_path" PNone)))
      else
        dirs <- locate_dirs opts is_portable ;;
        let '(factwallet_dir, electrum_dir) := dirs in
        t <- get_fs ;;
        if exists_ t factwallet_dir then
          emit (LogInfo ("FactWallet directory already exists: "
                         ++ path_text factwallet_dir))
        else
          match electrum_dir with
          | None => emit (LogInfo "No Electrum directory found at: None")
          | Some electrum_dir =>
              if negb (exists_ t electrum_dir) then
                emit (LogInfo ("No Electrum directory found at: "
                               ++ path_text electrum_dir))
              else
                found <- is_factwallet_data json_load electrum_dir ;;
                if found : bool then
                  emit (LogInfo ("Found FactWallet data in Electrum directory: "
                                 ++ path_text electrum_dir)) ;;;
                  run_migration c when now electrum_dir factwallet_dir ;;;
                  ret tt
                else ret tt
          end
  end.

End Orchestrator.

(** ** A loader for the concrete examples

    [json_load_text] decodes the bytes of a file the way [json.load] does on
    a file opened with [encoding='utf-8'], for JSON texts without [\u]
    escapes and without the constants [NaN] and [Infinity], numbers within
    the library's limit on digits, and bytes that are not an overlong or
    surrogate encoding.  The theorems below hold for any loader; this one
    gives the examples a config file made of real bytes.  It works on the
    byte codes. *)

Module Loader.

Local Open Scope nat_scope.

Definition byte := nat.

Fixpoint codes (s : string) : list byte :=
  match s with
  | EmptyString => []
  | String a r => nat_of_ascii a :: codes r
  end.

Fixpoint text (l : list byte) : string :=
  match l with
  | [] => EmptyString
  | c :: r => String (ascii_of_nat c) (text r)
  end.

(** UTF-8 well-formedness by lead byte and continuation bytes. *)
Definition is_cont (c : byte) : bool := (128 <=? c) && (c <=? 191).

Fixpoint utf8_ok (fuel : nat) (l : list byte) : bool :=
  match fuel with
  | 0 => false
  | S f =>
      match l with
      | [] => true
      | c :: r =>
          if c <=? 127 then utf8_ok f r
          else if (194 <=? c) && (c <=? 223) then
            match r with
            | c1 :: r1 => is_cont c1 && utf8_ok f r1
            | _ => false
            end
          else if (224 <=? c) && (c <=? 239) then
            match r with
            | c1 :: c2 :: r2 => is_cont c1 && is_cont c2 && utf8_ok f r2
            | _ => false
            end
          else if (240 <=? c) && (c <=? 244) then
            match r with
            | c1 :: c2 :: c3 :: r3 =>
                is_cont c1 && is_cont c2 && is_cont c3 && utf8_ok f r3
            | _ => false
            end
          else false
      end
  end.

Definition is_ws (c : byte) : bool :=
  (c =? 32) || (c =? 9) || (c =? 10) || (c =? 13).
Definition is_digit (c : byte) : bool := (48 <=? c) && (c <=? 57).

Fixpoint skip_ws (l : list byte) : list byte :=
  match l with
  | c :: r => if is_ws c then skip_ws r else l
  | [] => []
  end.

(** [starts lit l]: the rest of [l] after the literal [lit]. *)
Fixpoint starts (lit l : list byte) : option (list byte) :=
  match lit, l with
  | [], _ => Some l
  | a :: lit', b :: l' => if a =? b then starts lit' l' else None
  | _ :: _, [] => None
  end.

Definition unescape (c : byte) : option byte :=
  if c =? 34 then Some 34 else if c =? 92 then Some 92
  else if c =? 47 then Some 47 else if c =? 98 then Some 8
  else if c =? 102 then Some 12 else if c =? 110 then Some 10
  else if c =? 114 then Some 13 else if c =? 116 then Some 9
  else None.

(** The characters of a string up to its closing quote. *)
Fixpoint scan_string (l : list byte) : option (list byte * list byte) :=
  match l with
  | [] => None
  | c :: r =>
      if c =? 34 then Some ([], r)
      else if c =? 92 then
        match r with
        | e :: r' =>
            match unescape e, scan_string r' with
            | Some u, Some (cs, rest) => Some (u :: cs, rest)
            | _, _ => None
            end
        | [] => None
        end
      else if c <? 32 then None
      else match scan_string r with
           | Some (cs, rest) => Some (c :: cs, rest)
           | None => None
           end
  end.

Fixpoint take_digits (l : list byte) : list byte * list byte :=
  match l with
  | c :: r => if is_digit c then let '(ds, rest) := take_digits r in (c :: ds, rest)
              else ([], l)
  | [] => ([], [])
  end.

(** A number: an optional minus, an integer part without leading zero,
    an optional fraction, an optional exponent. *)
Definition scan_number (l : list byte) : option (list byte * list byte) :=
  let '(sign, l1) := match l with
                     | c :: r => if c =? 45 then ([45], r) else ([], l)
                     | [] => ([], l)
                     end in
  let '(int, l2) := take_digits l1 in
  match int with
  | [] => None
  | d :: more =>
      if (d =? 48) && negb (match more with [] => true | _ => false end) then None
      else
        let frac :=
          match l2 with
          | c :: r =>
              if c =? 46 then
                let '(fd, r') := take_digits r in
                match fd with [] => None | _ => Some (46 :: fd, r') end
              else Some ([], l2)
          | [] => Some ([], l2)
          end in
        match frac with
        | None => None
        | Some (fr, l3) =>
            let exp :=
              match l3 with
              | c :: r =>
                  if (c =? 101) || (c =? 69) then
                    let '(sg, r1) :=
                      match r with
                      | s :: r0 => if (s =? 43) || (s =? 45) then ([s], r0) else ([], r)
                      | [] => ([], r)
                      end in
                    let '(ed, r2) := take_digits r1 in
                    match ed with [] => None | _ => Some (c :: sg ++ ed, r2) end
                  else Some ([], l3)
              | [] => Some ([], l3)
              end in
            match exp with
            | None => None
            | Some (ex, l4) => Some (sign ++ int ++ fr ++ ex, l4)
            end
        end
  end.

(** Python keeps the last of several members with one key. *)
Fixpoint set_member (k : string) (v : json) (ms : list (string * json))
  : list (string * json) :=
  match ms with
  | [] => [(k, v)]
  | (k', v') :: r =>
      if String.eqb k k' then (k', v) :: r else (k', v') :: set_member k v r
  end.

Fixpoint parse_value (fuel : nat) (l : list byte) : option (json * list byte) :=
  match fuel with
  | 0 => None
  | S f =>
      match skip_ws l with
      | [] => None
      | c :: r =>
          if c =? 34 then
            match scan_string r with
            | Some (cs, rest) => Some (JStr (text cs), rest)
            | None => None
            end
          else if c =? 91 then
            match skip_ws r with
            | 93 :: rest => Some (JArr [], rest)
            | _ => parse_items f r []
            end
          else if c =? 123 then
            match skip_ws r with
            | 125 :: rest => Some (JObj [], rest)
            | _ => parse_members f r []
            end
          else if (c =? 45) || is_digit c then
            match scan_number (c :: r) with
            | Some (cs, rest) => Some (JNum (text cs), rest)
            | None => None
            end
          else
            match starts (codes "null") (c :: r),
                  starts (codes "true") (c :: r),
                  starts (codes "false") (c :: r) with
            | Some rest, _, _ => Some (JNull, rest)
            | _, Some rest, _ => Some (JBool true, rest)
            | _, _, Some rest => Some (JBool false, rest)
            | _, _, _ => None
            end
      end
  end
with parse_items (fuel : nat) (l : list byte) (acc : list json)
  : option (json * list byte) :=
  match fuel with
  | 0 => None
  | S f =>
      match parse_value f l with
      | Some (v, r) =>
          match skip_ws r with
          | c :: rest =>
              if c =? 44 then parse_items f rest (acc ++ [v])
              else if c =? 93 then Some (JArr (acc ++ [v]), rest)
              else None
          | [] => None
          end
      | None => None
      end
  end
with parse_members (fuel : nat) (l : list byte) (acc : list (string * json))
  : option (json * list byte) :=
  match fuel with
  | 0 => None
  | S f =>
      match skip_ws l with
      | q :: r =>
          if q =? 34 then
            match scan_string r with
            | Some (ks, r1) =>
                match skip_ws r1 with
                | colon :: r2 =>
                    if colon =? 58 then
                      match parse_value f r2 with
                      | Some (v, r3) =>
                          match skip_ws r3 with
                          | c :: rest =>
                              if c =? 44 then
                                parse_members f rest (set_member (text ks) v acc)
                              else if c =? 125 then
                                Some (JObj (set_member (text ks) v acc), rest)
                              else None
                          | [] => None
                          end
                      | None => None
                      end
                    else None
                | [] => None
                end
            | None => None
            end
          else None
      | [] => None
      end
  end.

Definition json_load_text (data : string) : result json :=
  let l := codes data in
  if utf8_ok (S (List.length l)) l then
    match parse_value (S (List.length l)) l with
    | Some (v, rest) =>
        match skip_ws rest with
        | [] => Ok v
        | _ => Raise JSONDecodeError
        end
    | None => Raise JSONDecodeError
    end
  else Raise UnicodeDecodeError.

(** The double quote, and a quoted word. *)
Definition dq : string := String (ascii_of_nat 34) EmptyString.
Definition quoted (s : string) : string := (dq ++ s ++ dq)%string.

End Loader.

(** ** Notions the statements use *)








(** The loop of [copytree_node] over the entries of a directory, and the
    loop of [copy_fresh], as functions of their own. *)
Section Loops.

Variable ignore : node -> path -> list name -> list name.
Variable t0 : node.
Variable ignored_names : list name.
Variable srcp dstp : path.

Fixpoint copytree_entries (es ds : list (name * node))
  : list (name * node) * list copy_error :=
  match es with
  | [] => (ds, [])
  | (n, c) :: r =>
      if mem n ignored_names then copytree_entries r ds
      else
        let '(v, e1) :=
          copytree_node ignore t0 (srcp ++ [n]) (dstp ++ [n]) c (assoc n ds) in
        let '(ds2, e2) :=
          copytree_entries r (match v with Some v => upsert n v ds | None => ds end) in
        (ds2, e1 ++ e2)
  end.


End Loops.



(** The marker line as the specification words it: the paths without
    grave accents around them. *)
Definition marker_text_spec (electrum_dir backup_dir factwallet_dir : path)
  (now : datetime) : string :=
  "Migrated from " ++ path_text electrum_dir ++ " (backup: "
  ++ path_text backup_dir ++ ") to " ++ path_text factwallet_dir ++ " on "
  ++ isoformat now.

(** The fields of a [datetime] within the widths of their formats: a year
    of four digits, where [%Y] is the same on every platform. *)
Definition in_range (d : datetime) : bool :=
  (10 ^ 3 <=? year d)%nat
  && (year d <? 10 ^ 4)%nat && (month d <? 10 ^ 2)%nat && (day d <? 10 ^ 2)%nat
  && (hour d <? 10 ^ 2)%nat && (minute d <? 10 ^ 2)%nat
  && (second d <? 10 ^ 2)%nat.

(** The error [shutil.move] raises when there is nothing at the source. *)
Definition missing_source_error (t : node) (e b : path) : exn :=
  if isdir t b && exists_ t (b ++ [basename e])
  then MoveError "Destination path already exists" (b ++ [basename e])
  else OSError ENOENT e.

(** Everything that exists in [a] exists in [b]. *)
Definition grows (a b : node) : Prop :=
  forall q, get a q <> None -> get b q <> None.

(** A computation that deletes nothing. *)
Definition monotone {A} (m : M A) : Prop :=
  forall s r s', m s = (r, s') -> grows (fs s) (fs s').

(** Steps 2 to 4 of the migration. *)
Definition steps_after_move (now : datetime)
  (electrum_dir backup_dir factwallet_dir : path) : M bool :=
  make_dir factwallet_dir ;;;
  emit (LogInfo (msg_copying backup_dir factwallet_dir)) ;;;
  shutil_copytree ignore_sockets backup_dir factwallet_dir ;;;
  write_file (factwallet_dir ++ [marker_name])
    (marker_text electrum_dir backup_dir factwallet_dir now) ;;;
  ret true.

(** A stretch of the log that holds informational records only: no
    dialog, no message box, no error. *)
Definition quiet (l : list event) : bool :=
  forallb (fun ev => match ev with LogInfo _ => true | _ => false end) l.

(** The state after one more record in the log. *)
Definition logged (ev : event) (s : state) : state :=
  mkState (fs s) (log s ++ [ev]).

(** The state in which the executor starts once the dialog is shown. *)
Definition prompted (e f : path) (s : state) : state :=
  logged (Prompt e f) s.

(** A computation that writes nothing to the log. *)
Definition silent {A} (m : M A) : Prop :=
  forall s r s', m s = (r, s') -> log s' = log s.


(** There is a directory at [q]. *)
Definition dir_at (t : node) (q : path) : Prop :=
  exists ds, get t q = Some (Dir ds).





(** The second skip condition of [check_for_migration]: a custom data
    directory outside portable mode. *)
Definition custom_data_dir (opts : dict) : bool :=
  (match opts with [] => false | _ => true end)
  && truthy (dict_get opts "electrum_path" PNone)
  && negb (truthy (dict_get opts "portable" (PBool false))).

(** The log line of [check_for_migration] before it shows the dialog. *)
Definition msg_found (electrum_dir : path) : string :=
  "Found FactWallet data in Electrum directory: " ++ path_text electrum_dir.

(** ** Inputs of the examples *)

Definition old_dir : path := ["home"; ".electrum"].
Definition new_dir : path := ["home"; ".factwallet"].

(** A home directory whose [.electrum] holds a config file with the given
    bytes and a wallet file. *)
Definition home_with_config (data : string) : node :=
  Dir [("home", Dir [(".electrum",
                      Dir [("config", File data); ("default_wallet", File "seed")])])].

(** Config texts: the mainnet genesis hash among other fields, an unknown
    hash, a null block record, and a byte that no UTF-8 text contains. *)
Definition config_mainnet : string :=
  "{" ++ Loader.quoted "auto_connect" ++ ": true, "
  ++ Loader.quoted "blockchain_preferred_block" ++ ": {"
  ++ Loader.quoted "height" ++ ": 0, " ++ Loader.quoted "hash" ++ ": "
  ++ Loader.quoted FACT_MAINNET_GENESIS ++ "}}".

Definition config_unknown_hash : string :=
  "{" ++ Loader.quoted "blockchain_preferred_block" ++ ": {"
  ++ Loader.quoted "hash" ++ ": " ++ Loader.quoted "00ff" ++ "}}".

Definition config_null_block : string :=
  "{" ++ Loader.quoted "blockchain_preferred_block" ++ ": null}".

Definition config_not_utf8 : string := String (ascii_of_nat 255) EmptyString.

Definition clock_dialog : datetime := mkDatetime 2024 3 5 7 8 9 0.
Definition clock_marker : datetime := mkDatetime 2024 3 5 7 8 10 123.

Definition backup_ex : path := dialog_backup_dir old_dir clock_dialog.

(** A wallet directory that holds a dangling link next to its wallet. *)
Definition home_with_dangling : node :=
  Dir [("home", Dir [(".electrum",
                      Dir [("default_wallet", File "seed"); ("lockfile", Dangling)])])].

(** A wallet directory that holds an entry with its own name. *)
Definition home_nested : node :=
  Dir [("home", Dir [(".electrum",
                      Dir [(".electrum", File "old"); ("default_wallet", File "seed")])])].

(** A wallet directory with two regular files, one of them in a
    sub-directory, and two sockets; and the same next to a new directory
    that exists already and holds a file. *)
Definition wallet_with_sockets : list (name * node) :=
  [("config", File "{}"); ("daemon", Sock);
   ("wallets", Dir [("default_wallet", File "seed"); ("daemon_rpc_socket", Sock)])].



(** A home directory where the backup path is taken by a directory. *)
Definition home_with_backup : node :=
  Dir [("home", Dir [(".electrum", Dir wallet_with_sockets);
                     (".electrum-backupByFactWallet-20240305070809",
                      Dir [("notes", File "mine")])])].

(** * Properties *)

(** Running the monad: unfold its operations and reduce. *)
Ltac mrun :=
  repeat (progress (unfold bind, get_fs, set_fs, emit, ret, raise,
                      try_except, try_catch;
                    cbv beta iota zeta)).

(** ** The tree operations *)

Lemma node_rect' (P : node -> Prop)
  (HF : forall d, P (File d)) (HS : P Sock) (HD : P Dangling)
  (HDir : forall es, Forall (fun e => P (snd e)) es -> P (Dir es)) :
  forall c, P c.
Proof.
  fix IH 1. intros [d| | |es].
  - apply HF.
  - apply HS.
  - apply HD.
  - apply HDir. induction es as [|[n c] r IHr]; constructor.
    + apply IH.
    + apply IHr.
Qed.



Lemma copytree_node_Dir ignore t0 srcp dstp es old :
  copytree_node ignore t0 srcp dstp (Dir es) old
  = match old with
    | Some (File _) | Some Sock | Some Dangling => (None, [(srcp, dstp, EEXIST)])
    | _ =>
        let '(ds', errs) :=
          copytree_entries ignore t0 (ignore t0 srcp (map fst es)) srcp dstp es
            (match old with Some (Dir ds) => ds | _ => [] end) in
        (Some (Dir ds'), errs)
    end.
Proof. reflexivity. Qed.


Lemma assoc_upsert_same n v es : assoc n (upsert n v es) = Some v.
Proof.
  induction es as [|[m c] r IH]; simpl.
  - now rewrite String.eqb_refl.
  - destruct (String.eqb n m) eqn:E; simpl; rewrite E; [reflexivity|exact IH].
Qed.

Lemma assoc_upsert_other n m v es :
  String.eqb m n = false -> assoc m (upsert n v es) = assoc m es.
Proof.
  intros Hne. induction es as [|[k c] r IH]; simpl.
  - now rewrite Hne.
  - destruct (String.eqb n k) eqn:E; simpl.
    + apply String.eqb_eq in E. subst k. now rewrite Hne.
    + destruct (String.eqb m k); [reflexivity|exact IH].
Qed.

Lemma assoc_delete_same n es : assoc n (delete n es) = None.
Proof.
  induction es as [|[m c] r IH]; simpl; [reflexivity|].
  destruct (String.eqb n m) eqn:E; simpl; [exact IH|now rewrite E].
Qed.

Lemma assoc_delete_other n m es :
  String.eqb m n = false -> assoc m (delete n es) = assoc m es.
Proof.
  intros Hne. induction es as [|[k c] r IH]; simpl; [reflexivity|].
  destruct (String.eqb n k) eqn:E; simpl.
  - apply String.eqb_eq in E. subst k. now rewrite Hne.
  - destruct (String.eqb m k); [reflexivity|exact IH].
Qed.

Lemma eqb_sym_false (n m : string) :
  String.eqb n m = false -> String.eqb m n = false.
Proof. rewrite String.eqb_sym. trivial. Qed.

Lemma get_put_same p : forall t v t',
  put t p v = Some t' -> get t' p = Some v.
Proof.
  induction p as [|n q IH]; simpl; intros t v t' H.
  - now inversion H.
  - destruct t as [| | |es]; try discriminate.
    destruct (assoc n es) as [c|] eqn:Ea.
    + destruct (put c q v) as [c'|] eqn:Ep; [|discriminate].
      inversion H; subst. simpl. rewrite assoc_upsert_same. eauto.
    + destruct q; [|discriminate]. inversion H; subst. simpl.
      now rewrite assoc_upsert_same.
Qed.

Lemma get_put_apart p : forall q t v t',
  apart p q = true -> put t p v = Some t' -> get t' q = get t q.
Proof.
  induction p as [|n p' IH]; intros [|m q'] t v t' Ha H; simpl in *;
    try discriminate.
  destruct t as [| | |es]; try discriminate.
  destruct (String.eqb n m) eqn:E.
  - apply String.eqb_eq in E. subst m.
    destruct (assoc n es) as [c|] eqn:Ea.
    + destruct (put c p' v) as [c'|] eqn:Ep; [|discriminate].
      inversion H; subst. simpl. rewrite assoc_upsert_same. eauto.
    + destruct p'; [simpl in Ha; discriminate|discriminate].
  - destruct (match assoc n es with
              | Some c => put c p' v
              | None => match p' with [] => Some v | _ :: _ => None end
              end) as [c'|]; [|discriminate].
    inversion H; subst. simpl.
    rewrite assoc_upsert_other by (now apply eqb_sym_false). reflexivity.
Qed.

(** ** The executor always returns *)

Lemma migration_steps_value now e b f s v s' :
  migration_steps now e b f s = (Ok v, s') -> v = true.
Proof.
  unfold migration_steps, bind.
  repeat match goal with
         | |- context [match ?m with (_, _) => _ end] =>
             destruct m as [[?|?] ?]; try discriminate
         end.
  unfold ret. intros E. inversion E. reflexivity.
Qed.

Lemma perform_migration_cases now e b f s :
  (exists s', migration_steps now e b f s = (Ok true, s')
              /\ perform_migration now e b f s = (Ok true, s'))
  \/ (exists x s', migration_steps now e b f s = (Raise x, s')
                   /\ perform_migration now e b f s
                      = (Ok false,
                         mkState (fs s') (log s' ++ [LogError "Migration failed" x]))).
Proof.
  unfold perform_migration, try_except, try_catch.
  destruct (migration_steps now e b f s) as [[v|x] s'] eqn:E.
  - left. exists s'. apply migration_steps_value in E. subst v. split; reflexivity.
  - right. exists x, s'. split; reflexivity.
Qed.

Lemma perform_migration_returns now e b f s :
  exists v s', perform_migration now e b f s = (Ok v, s').
Proof.
  destruct (perform_migration_cases now e b f s) as [(s' & _ & H)|(x & s' & _ & H)];
    rewrite H; eauto.
Qed.

(** ** The orchestrator's entry checks *)

(** C10: called with [config_options = None], its default argument,
    [check_for_migration] raises [AttributeError] at the first access:
    whatever the environment and the file system are, no skip condition is
    evaluated, nothing is logged and the state is untouched. *)
Theorem check_for_migration_default_argument_raises :
  forall json_load android user_dir old_user_dir c when now s,
    check_for_migration json_load android user_dir old_user_dir c when now None s
    = (Raise (AttributeError "'NoneType' object has no attribute 'get'"), s).
Proof. reflexivity. Qed.

(** ** The workflow around the dialog *)

Lemma run_migration_skip when now e f s :
  run_migration Skip when now e f s
  = (Ok true,
     mkState (fs s) ((log s ++ [Prompt e f]) ++ [LogInfo "User skipped migration"])).
Proof. reflexivity. Qed.

Lemma run_migration_migrate when now e f s :
  run_migration Migrate when now e f s
  = match perform_migration now e (dialog_backup_dir e when) f (prompted e f s) with
    | (Ok true, s2) =>
        (Ok true,
         mkState (fs s2)
           ((log s2 ++ [InformationBox "Migration Complete"])
              ++ [LogInfo ("Successfully migrated data from " ++ path_text e
                           ++ " to " ++ path_text f)]))
    | (Ok false, s2) =>
        (Raise (PlainException "Error during wallet migration"),
         mkState (fs s2)
           ((log s2 ++ [CriticalBox "Migration Failed"])
              ++ [LogError "Error during migration"
                    (PlainException "Error during wallet migration")]))
    | (Raise x, s2) =>
        (Raise x, mkState (fs s2) (log s2 ++ [LogError "Error during migration" x]))
    end.
Proof.
  unfold run_migration, try_except, try_catch, exec_, do_migrate, bind, emit,
    prompted, MigrationDialog_init. simpl.
  destruct (perform_migration now e (dialog_backup_dir e when) f _)
    as [[[|]|x] s2]; reflexivity.
Qed.

(** C6: [run_migration] returns [True] both when the executor succeeds and
    when the user declines, in which case the file system is left as it
    was; it raises in exactly one case, the executor reporting failure after
    the user consented. *)
Theorem run_migration_outcomes :
  forall c when now e f s,
    let executor :=
      fst (perform_migration now e (dialog_backup_dir e when) f (prompted e f s)) in
    let r := run_migration c when now e f s in
    (fst r = Ok true
     \/ fst r = Raise (PlainException "Error during wallet migration"))
    /\ (fst r = Ok true <-> c = Skip \/ executor = Ok true)
    /\ ((exists x, fst r = Raise x) <-> c = Migrate /\ executor = Ok false)
    /\ (c = Skip -> fs (snd r) = fs s).
Proof.
  intros c when now e f s. cbv zeta.
  destruct c.
  - rewrite run_migration_migrate.
    destruct (perform_migration_returns now e (dialog_backup_dir e when) f
                (prompted e f s)) as [v [s2 H]].
    rewrite H. destruct v; simpl.
    + split; [now left|]. split; [tauto|]. split; [|discriminate].
      split; [intros [x Hx]; discriminate|intros [_ Hx]; discriminate].
    + split; [now right|]. split.
      * split; [discriminate|intros [Hx|Hx]; discriminate].
      * split; [|discriminate]. split; [tauto|eauto].
  - rewrite run_migration_skip. simpl.
    split; [now left|]. split; [tauto|]. split; [|reflexivity].
    split; [intros [x Hx]; discriminate|intros [Hx _]; discriminate].
Qed.

(** ** The detector *)

Lemma get_snoc (p : path) : forall t n c,
  get t (p ++ [n]) = Some c ->
  exists es, get t p = Some (Dir es) /\ assoc n es = Some c.
Proof.
  induction p as [|m q IH]; simpl; intros t n c H.
  - destruct t as [| | |es]; try discriminate.
    destruct (assoc n es) as [x|] eqn:E; [|discriminate].
    inversion H; subst. eauto.
  - destruct t as [| | |es]; try discriminate.
    destruct (assoc m es) as [x|]; [eauto|discriminate].
Qed.


Section DetectorFacts.

Variable json_load : string -> result json.

Lemma detector_no_directory (d : path) s :
  exists_ (fs s) d = false -> is_factwallet_data json_load d s = (Ok false, s).
Proof.
  intros H. unfold is_factwallet_data. mrun. now rewrite H.
Qed.

Lemma detector_no_config (d : path) s :
  exists_ (fs s) d = true -> exists_ (fs s) (d ++ ["config"]) = false ->
  is_factwallet_data json_load d s = (Ok false, s).
Proof.
  intros H1 H2. unfold is_factwallet_data. mrun. now rewrite H1, H2.
Qed.

(** What the detector does with a config that is a regular file. *)
Lemma detector_on_file (d : path) s data :
  get (fs s) (d ++ ["config"]) = Some (File data) ->
  is_factwallet_data json_load d s
  = match json_load data with
    | Ok (JObj ms) =>
        match member "blockchain_preferred_block" ms with
        | None => (Ok false, s)
        | Some (JObj bs) =>
            (Ok (match member "hash" bs with
                 | Some h => py_in h [FACT_MAINNET_GENESIS; FACT_TESTNET_GENESIS]
                 | None => false
                 end), s)
        | Some _ => (Raise (AttributeError "object has no attribute 'get'"), s)
        end
    | Ok _ => (Raise (AttributeError "object has no attribute 'get'"), s)
    | Raise e => if catches_json_or_os e then (Ok false, s) else (Raise e, s)
    end.
Proof.
  intros H.
  assert (Hd : exists_ (fs s) d = true).
  { apply get_snoc in H. destruct H as [es [H _]]. unfold exists_. now rewrite H. }
  unfold is_factwallet_data. mrun. rewrite Hd.
  change (negb true) with false. mrun.
  unfold exists_. rewrite H. unfold read_file. mrun. rewrite H. mrun.
  destruct (json_load data) as [cfg|e]; [|destruct (catches_json_or_os e); reflexivity].
  unfold py_get.
  destruct cfg as [| | | | |ms]; try reflexivity. mrun.
  destruct (member "blockchain_preferred_block" ms) as [[| | | | |bs]|];
    try reflexivity.
  mrun. destruct (member "hash" bs); reflexivity.
Qed.

(** A config that cannot be opened as a file: a directory or a socket. *)
Lemma detector_unopenable (d : path) s c :
  get (fs s) (d ++ ["config"]) = Some c ->
  match c with Dir _ | Sock => True | _ => False end ->
  is_factwallet_data json_load d s = (Ok false, s).
Proof.
  intros H Hc.
  assert (Hd : exists_ (fs s) d = true).
  { apply get_snoc in H. destruct H as [es [H _]]. unfold exists_. now rewrite H. }
  unfold is_factwallet_data. mrun. rewrite Hd.
  change (negb true) with false. mrun.
  unfold exists_. rewrite H.
  destruct c; try contradiction;
    unfold read_file; mrun; rewrite H; reflexivity.
Qed.

(** The fingerprint decides, whatever else the config holds. *)
Lemma detector_match (d : path) s data ms bs h :
  get (fs s) (d ++ ["config"]) = Some (File data) ->
  json_load data = Ok (JObj ms) ->
  member "blockchain_preferred_block" ms = Some (JObj bs) ->
  member "hash" bs = Some (JStr h) ->
  is_factwallet_data json_load d s
  = (Ok (String.eqb h FACT_MAINNET_GENESIS || String.eqb h FACT_TESTNET_GENESIS), s).
Proof.
  intros H Hl Hb Hh. rewrite (detector_on_file _ _ _ H), Hl, Hb, Hh.
  simpl. now rewrite orb_false_r.
Qed.

End DetectorFacts.

(** C3: a config whose [blockchain_preferred_block] is [null] has no hash
    field, and the claim has the detector answer false there; the call
    [blockchain_preferred_block.get('hash')] raises [AttributeError]
    instead, which the [except] clause does not catch. *)
Theorem detector_raises_on_null_block :
  Loader.json_load_text config_null_block
  = Ok (JObj [("blockchain_preferred_block", JNull)])
  /\ is_factwallet_data Loader.json_load_text old_dir
       (mkState (home_with_config config_null_block) [])
     = (Raise (AttributeError "object has no attribute 'get'"),
        mkState (home_with_config config_null_block) []).
Proof. split; vm_compute; reflexivity. Qed.

(** C4: a config file that is not UTF-8 text is not valid JSON data, and
    the claim has the detector answer false there; reading it raises
    [UnicodeDecodeError], which is neither [JSONDecodeError] nor [OSError]
    and leaves the detector. *)
Theorem detector_raises_on_undecodable_config :
  Loader.json_load_text config_not_utf8 = Raise UnicodeDecodeError
  /\ catches_json_or_os UnicodeDecodeError = false
  /\ is_factwallet_data Loader.json_load_text old_dir
       (mkState (home_with_config config_not_utf8) [])
     = (Raise UnicodeDecodeError, mkState (home_with_config config_not_utf8) []).
Proof. repeat split; vm_compute; reflexivity. Qed.

(** The cases of both claims that the code does meet: the fingerprint
    decides for a config object, and a missing directory, a missing config,
    a text that is not JSON and a config that cannot be opened all give
    false. *)
Lemma detector_false_cases json_load (d : path) s :
  (exists_ (fs s) d = false
   \/ (exists_ (fs s) d = true /\ exists_ (fs s) (d ++ ["config"]) = false)
   \/ (exists data, get (fs s) (d ++ ["config"]) = Some (File data)
                    /\ json_load data = Raise JSONDecodeError)
   \/ (exists c, get (fs s) (d ++ ["config"]) = Some c
                 /\ match c with Dir _ | Sock => True | _ => False end)) ->
  is_factwallet_data json_load d s = (Ok false, s).
Proof.
  intros [H|[[H1 H2]|[[data [H1 H2]]|[c [H1 H2]]]]].
  - now apply detector_no_directory.
  - now apply detector_no_config.
  - rewrite (detector_on_file _ _ _ _ H1), H2. reflexivity.
  - eapply detector_unopenable; eauto.
Qed.

Lemma detector_accepts_mainnet_config :
  is_factwallet_data Loader.json_load_text old_dir
    (mkState (home_with_config config_mainnet) [])
  = (Ok true, mkState (home_with_config config_mainnet) []).
Proof. vm_compute. reflexivity. Qed.

(** ** The orchestrator's skip conditions *)

Lemma locate_dirs_state user_dir old_user_dir opts v s r s' :
  locate_dirs user_dir old_user_dir opts v s = (r, s') -> s' = s.
Proof.
  unfold locate_dirs, dict_item, os_path_dirname, as_path.
  destruct (truthy v); mrun.
  - destruct (dict_lookup "electrum_path" opts) as [[| |p]|]; mrun;
      intros H; inversion H; reflexivity.
  - intros H; inversion H; reflexivity.
Qed.

(** When the new directory exists already, whatever the old one holds,
    and when the old directory's config carries a hash that is not a known
    fingerprint, [check_for_migration] returns without error, leaves the
    file system as it is and adds informational log records only: the
    dialog is never shown. *)
Theorem check_for_migration_skips :
  forall json_load android user_dir old_user_dir c when now opts s
         factwallet_dir electrum_dir,
    locate_dirs user_dir old_user_dir opts (dict_get opts "portable" (PBool false)) s
    = (Ok (factwallet_dir, electrum_dir), s) ->
    (exists_ (fs s) factwallet_dir = true
     \/ exists e data ms bs h,
         electrum_dir = Some e
         /\ get (fs s) (e ++ ["config"]) = Some (File data)
         /\ json_load data = Ok (JObj ms)
         /\ member "blockchain_preferred_block" ms = Some (JObj bs)
         /\ member "hash" bs = Some h
         /\ py_in h [FACT_MAINNET_GENESIS; FACT_TESTNET_GENESIS] = false) ->
    exists l,
      check_for_migration json_load android user_dir old_user_dir c when now
        (Some opts) s
      = (Ok tt, mkState (fs s) (log s ++ l))
      /\ quiet l = true.
Proof.
  intros json_load android user_dir old_user_dir c when now opts s tgt src HL HC.
  unfold check_for_migration.
  destruct android; [eexists; split; [reflexivity|reflexivity]|].
  destruct (_ && _ && _); [eexists; split; [reflexivity|reflexivity]|].
  mrun. rewrite HL. mrun.
  destruct (exists_ (fs s) tgt) eqn:Et; [eexists; split; [reflexivity|reflexivity]|].
  destruct HC as [HC|(e & data & ms & bs & h & -> & Hg & Hj & Hb & Hh & Hin)];
    [discriminate|].
  assert (He : exists_ (fs s) e = true).
  { apply get_snoc in Hg. destruct Hg as [es [Hg _]]. unfold exists_. now rewrite Hg. }
  rewrite He. change (negb true) with false. mrun.
  rewrite (detector_on_file _ _ _ _ Hg), Hj, Hb, Hh, Hin.
  exists []. split; [|reflexivity].
  rewrite app_nil_r. destruct s; reflexivity.
Qed.

Lemma check_for_migration_skips_witness :
  exists l,
    check_for_migration Loader.json_load_text false new_dir (Some old_dir)
      Migrate clock_dialog clock_marker (Some [])
      (mkState (home_with_config config_unknown_hash) [])
    = (Ok tt, mkState (home_with_config config_unknown_hash) ([] ++ l))
    /\ quiet l = true.
Proof.
  apply (check_for_migration_skips Loader.json_load_text false new_dir
           (Some old_dir) Migrate clock_dialog clock_marker []
           (mkState (home_with_config config_unknown_hash) [])
           new_dir (Some old_dir)).
  - reflexivity.
  - right. exists old_dir, config_unknown_hash,
      [("blockchain_preferred_block", JObj [("hash", JStr "00ff")])],
      [("hash", JStr "00ff")], (JStr "00ff").
    repeat split; vm_compute; reflexivity.
Defined.

(** C7: not every skip condition returns without error.  An old directory
    that is not recognised because its config is malformed is one: the
    claim has [check_for_migration] return there, leaving the file system
    alone and showing no dialog.  With a config whose block record is
    [null], and with a config that is not UTF-8 text, the exception that
    leaves [is_factwallet_data] leaves [check_for_migration] as well,
    whatever the user would have chosen; nothing is logged and the file
    system is as it was. *)
Theorem check_for_migration_raises_on_malformed_config :
  forall c when now,
    check_for_migration Loader.json_load_text false new_dir (Some old_dir)
      c when now (Some []) (mkState (home_with_config config_null_block) [])
    = (Raise (AttributeError "object has no attribute 'get'"),
       mkState (home_with_config config_null_block) [])
    /\ check_for_migration Loader.json_load_text false new_dir (Some old_dir)
         c when now (Some []) (mkState (home_with_config config_not_utf8) [])
       = (Raise UnicodeDecodeError,
          mkState (home_with_config config_not_utf8) []).
Proof. intros c when now. split; vm_compute; reflexivity. Qed.

(** ** The [ignore] callback and the copy *)

Lemma mem_In n l : mem n l = true <-> In n l.
Proof.
  unfold mem. rewrite existsb_exists. split.
  - intros [x [Hx E]]. apply String.eqb_eq in E. now subst.
  - intros H. exists n. split; [exact H|apply String.eqb_refl].
Qed.

Lemma ignore_sockets_In t dir files f :
  In f (ignore_sockets t dir files)
  <-> In f files /\ os_stat t (dir ++ [f]) = Ok Sock.
Proof.
  induction files as [|g r IH]; simpl.
  - tauto.
  - destruct (os_stat t (dir ++ [g])) as [st|x] eqn:E.
    + destruct st; simpl; rewrite ?IH.
      * split; [tauto|]. intros [[->|H] H2]; [congruence|tauto].
      * split; [intros [->|H]; tauto|tauto].
      * split; [tauto|]. intros [[->|H] H2]; [congruence|tauto].
      * split; [tauto|]. intros [[->|H] H2]; [congruence|tauto].
    + rewrite IH. split; [tauto|]. intros [[->|H] H2]; [congruence|tauto].
Qed.

(** A name on the ignore list never reaches the destination. *)
Lemma copytree_entries_skips ignore t0 ignored srcp dstp n :
  mem n ignored = true ->
  forall es ds, assoc n ds = None ->
    assoc n (fst (copytree_entries ignore t0 ignored srcp dstp es ds)) = None.
Proof.
  intros Hn. induction es as [|[m c] r IH]; simpl; intros ds Hd.
  - exact Hd.
  - destruct (mem m ignored) eqn:Em; [now apply IH|].
    destruct (copytree_node ignore t0 (srcp ++ [m]) (dstp ++ [m]) c (assoc m ds))
      as [v e1].
    specialize (IH (match v with Some v0 => upsert m v0 ds | None => ds end)).
    destruct (copytree_entries ignore t0 ignored srcp dstp r _) as [ds2 e2].
    simpl in *. apply IH.
    destruct v as [v0|]; [|exact Hd].
    rewrite assoc_upsert_other; [exact Hd|].
    destruct (String.eqb n m) eqn:E; [|reflexivity].
    apply String.eqb_eq in E. subst m. congruence.
Qed.

(** C8, as the code has it: [ignore_sockets] returns exactly the names
    whose [os.stat] reports a socket, and a name on that list is left out of
    the copy; a name whose [os.stat] fails is not on the list, so the entry
    is handed to the copy like any other. *)
Theorem ignore_sockets_excludes_sockets_only :
  forall t dir files,
    (forall f, In f (ignore_sockets t dir files)
               <-> In f files /\ os_stat t (dir ++ [f]) = Ok Sock)
    /\ (forall f x, os_stat t (dir ++ [f]) = Raise x ->
                    ~ In f (ignore_sockets t dir files))
    /\ (forall dstp es ds errs f,
          copytree_node ignore_sockets t dir dstp (Dir es) None
          = (Some (Dir ds), errs) ->
          In f (ignore_sockets t dir (map fst es)) -> assoc f ds = None).
Proof.
  intros t dir files. split; [|split].
  - intros f. apply ignore_sockets_In.
  - intros f x Hx Hin. apply ignore_sockets_In in Hin. destruct Hin as [_ H].
    congruence.
  - intros dstp es ds errs f H Hin. rewrite copytree_node_Dir in H.
    apply mem_In in Hin.
    pose proof (copytree_entries_skips ignore_sockets t _ dir dstp f Hin es []
                  eq_refl) as Hs.
    destruct (copytree_entries ignore_sockets t _ dir dstp es []) as [ds' e'].
    inversion H; subst. exact Hs.
Qed.

(** C8 as stated fails: the link [lockfile] cannot be classified, it is not
    on the ignore list, the copy takes it up and fails on it, and the
    migration ends in failure. *)
Lemma unclassified_entry_is_not_skipped :
  os_stat home_with_dangling (old_dir ++ ["lockfile"])
  = Raise (OSError ENOENT (old_dir ++ ["lockfile"]))
  /\ ignore_sockets home_with_dangling old_dir ["default_wallet"; "lockfile"] = []
  /\ (let r := perform_migration clock_marker old_dir backup_ex new_dir
                 (mkState home_with_dangling []) in
      fst r = Ok false
      /\ In (LogError "Migration failed"
               (CopyError [(backup_ex ++ ["lockfile"], new_dir ++ ["lockfile"],
                            ENOENT)]))
            (log (snd r))).
Proof.
  split; [reflexivity|]. split; [reflexivity|].
  vm_compute. split; [reflexivity|]. right. right. left. reflexivity.
Qed.

(** ** Texts: the backup name and the marker line *)

Lemma sapp_assoc (a b c : string) : ((a ++ b) ++ c = a ++ (b ++ c))%string.
Proof. induction a as [|x a IH]; simpl; [reflexivity|now rewrite IH]. Qed.

Lemma slength_app (a b : string) :
  String.length (a ++ b) = String.length a + String.length b.
Proof. induction a as [|x a IH]; simpl; [reflexivity|now rewrite IH]. Qed.

Lemma zeros_length k : String.length (zeros k) = k.
Proof. induction k; simpl; [reflexivity|now rewrite IHk]. Qed.

Lemma digits_fuel_length fuel : forall n acc k,
  (1 <= k)%nat -> (n < 10 ^ k)%nat ->
  (String.length (digits_fuel fuel n acc) <= k + String.length acc)%nat.
Proof.
  induction fuel as [|f IH]; intros n acc k Hk Hn; cbn [digits_fuel].
  - lia.
  - destruct (Nat.eqb (n / 10) 0) eqn:E.
    + cbn [String.length]. lia.
    + apply Nat.eqb_neq in E.
      destruct k as [|[|k]]; [lia| |].
      * exfalso. apply E. apply Nat.div_small.
        change (10 ^ 1)%nat with 10%nat in Hn. exact Hn.
      * specialize (IH (n / 10) (String (ascii_of_nat (48 + n mod 10)) acc) (S k)).
        cbn [String.length] in IH.
        assert (n / 10 < 10 ^ S k)%nat.
        { apply Nat.Div0.div_lt_upper_bound.
          change (10 ^ S (S k))%nat with (10 * 10 ^ S k)%nat in Hn. exact Hn. }
        assert (1 <= S k)%nat by lia.
        specialize (IH H0 H). lia.
Qed.

Lemma pad_length k n :
  (1 <= k)%nat -> (n < 10 ^ k)%nat -> String.length (pad k n) = k.
Proof.
  intros Hk Hn. unfold pad, decimal. rewrite slength_app, zeros_length.
  pose proof (digits_fuel_length (S n) n "" k Hk Hn) as H.
  cbn [String.length] in H. lia.
Qed.

Lemma strftime_compact_length d :
  in_range d = true -> String.length (strftime_compact d) = 14.
Proof.
  unfold in_range. rewrite !andb_true_iff, !Nat.ltb_lt.
  intros [[[[[[_ Hy] Hm] Hd] Hh] Hmi] Hs].
  unfold strftime_compact. rewrite !slength_app.
  rewrite (pad_length 4), !(pad_length 2); try assumption; try lia.
Qed.

Lemma concat_snoc sep (p : list string) x :
  p <> [] -> String.concat sep (p ++ [x])
             = (String.concat sep p ++ sep ++ x)%string.
Proof.
  induction p as [|a [|b r] IH]; intros Hp; [congruence| |].
  - reflexivity.
  - change (String.concat sep ((a :: b :: r) ++ [x]))
      with (a ++ sep ++ String.concat sep ((b :: r) ++ [x]))%string.
    rewrite IH by discriminate.
    change (String.concat sep (a :: b :: r))
      with (a ++ sep ++ String.concat sep (b :: r))%string.
    now rewrite !sapp_assoc.
Qed.

Lemma path_text_add_suffix (e : path) s :
  path_text (add_suffix e s) = (path_text e ++ s)%string.
Proof.
  unfold add_suffix, path_text.
  destruct e as [|a r] eqn:Ee; [reflexivity|]. rewrite <- Ee in *.
  assert (He : e <> []) by (rewrite Ee; discriminate).
  assert (Hs : e = removelast e ++ [last e ""]) by now apply app_removelast_last.
  destruct (removelast e) as [|b q] eqn:Er.
  - rewrite Hs. reflexivity.
  - remember (last e "") as l eqn:El. clear El. rewrite Hs.
    rewrite !concat_snoc by discriminate.
    simpl. f_equal. now rewrite !sapp_assoc.
Qed.

(** ** The four steps of a successful migration *)

Lemma bind_ok {A B} (m : M A) (k : A -> M B) s v s' :
  bind m k s = (Ok v, s') ->
  exists a s1, m s = (Ok a, s1) /\ k a s1 = (Ok v, s').
Proof.
  unfold bind. destruct (m s) as [[a|x] s1]; [eauto|discriminate].
Qed.

Lemma migration_steps_ok now e b f s v s' :
  migration_steps now e b f s = (Ok v, s') ->
  exists s1 s2 s3,
    shutil_move e b (logged (LogInfo (msg_moving e b)) s) = (Ok tt, s1)
    /\ make_dir f s1 = (Ok tt, s2)
    /\ shutil_copytree ignore_sockets b f (logged (LogInfo (msg_copying b f)) s2)
       = (Ok tt, s3)
    /\ write_file (f ++ [marker_name]) (marker_text e b f now) s3 = (Ok tt, s').
Proof.
  unfold migration_steps. intros H.
  apply bind_ok in H. destruct H as ([] & s0 & H0 & H).
  unfold emit in H0. inversion H0; subst s0; clear H0.
  apply bind_ok in H. destruct H as ([] & s1 & H1 & H).
  apply bind_ok in H. destruct H as ([] & s2 & H2 & H).
  apply bind_ok in H. destruct H as ([] & s2' & H0 & H).
  unfold emit in H0. inversion H0; subst s2'; clear H0.
  apply bind_ok in H. destruct H as ([] & s3 & H3 & H).
  apply bind_ok in H. destruct H as ([] & s4 & H4 & H).
  unfold ret in H. inversion H; subst.
  exists s1, s2, s3. auto.
Qed.

Lemma write_file_ok p data s s' :
  write_file p data s = (Ok tt, s') ->
  put (fs s) p (File data) = Some (fs s') /\ log s' = log s
  /\ match get (fs s) p with Some (Dir _) | Some Sock => False | _ => True end.
Proof.
  unfold write_file. mrun.
  destruct (get (fs s) p) as [[| | |]|] eqn:Eg; try discriminate;
    (destruct p; [discriminate|]);
    (destruct (get (fs s) (parent _)) as [[| | |]|]; try discriminate);
    (destruct (put (fs s) _ (File data)) as [t'|]; [|discriminate]);
    intros H; inversion H; subst; simpl; auto.
Qed.

Lemma marker_written now e b f s s' :
  perform_migration now e b f s = (Ok true, s') ->
  get (fs s') (f ++ [marker_name]) = Some (File (marker_text e b f now)).
Proof.
  intros H.
  destruct (perform_migration_cases now e b f s)
    as [(s1 & Hs & H1)|(x & s1 & _ & H1)]; rewrite H1 in H; [|discriminate].
  inversion H; subst s1.
  apply migration_steps_ok in Hs. destruct Hs as (s1 & s2 & s3 & _ & _ & _ & Hw).
  apply write_file_ok in Hw. destruct Hw as [Hp _].
  now apply get_put_same in Hp.
Qed.

(** C9, as the code has it: the dialog's backup path is the source path
    followed by [-backupByFactWallet-] and the fourteen digits of
    [%Y%m%d%H%M%S]; after a successful migration the marker file
    [.migrated_from_electrum] of the target holds the one line
    [Migrated from `<source>` (backup: `<backup>`) to `<target>` on <isoformat>],
    each path between two grave accents. *)
Theorem marker_line_and_backup_name :
  forall when now (e f : path) s s',
    in_range when = true ->
    perform_migration now e (d_backup_dir (MigrationDialog_init e f when)) f s
    = (Ok true, s') ->
    let b := d_backup_dir (MigrationDialog_init e f when) in
    path_text b
    = (path_text e ++ "-backupByFactWallet-" ++ strftime_compact when)%string
    /\ String.length (strftime_compact when) = 14
    /\ get (fs s') (f ++ [marker_name])
       = Some (File ("Migrated from `" ++ path_text e ++ "` (backup: `"
                     ++ path_text b ++ "`) to `" ++ path_text f ++ "` on "
                     ++ isoformat now)).
Proof.
  intros when now e f s s' Hr H. cbv zeta. split; [|split].
  - simpl. unfold dialog_backup_dir. apply path_text_add_suffix.
  - now apply strftime_compact_length.
  - apply (marker_written _ _ _ _ _ _ H).
Qed.

Lemma marker_line_and_backup_name_witness :
  let s' := snd (perform_migration clock_marker old_dir
                   (d_backup_dir (MigrationDialog_init old_dir new_dir clock_dialog))
                   new_dir (mkState (home_with_config config_mainnet) [])) in
  let b := d_backup_dir (MigrationDialog_init old_dir new_dir clock_dialog) in
  path_text b
  = (path_text old_dir ++ "-backupByFactWallet-" ++ strftime_compact clock_dialog)%string
  /\ String.length (strftime_compact clock_dialog) = 14
  /\ get (fs s') (new_dir ++ [marker_name])
     = Some (File ("Migrated from `" ++ path_text old_dir ++ "` (backup: `"
                   ++ path_text b ++ "`) to `" ++ path_text new_dir ++ "` on "
                   ++ isoformat clock_marker)).
Proof.
  apply (marker_line_and_backup_name clock_dialog clock_marker old_dir new_dir
           (mkState (home_with_config config_mainnet) [])).
  - reflexivity.
  - vm_compute. reflexivity.
Defined.

(** C9 as stated fails: the line written is not the line of the
    specification, which has the paths without grave accents. *)
Lemma marker_line_differs_from_spec_line :
  let r := perform_migration clock_marker old_dir backup_ex new_dir
             (mkState (home_with_config config_mainnet) []) in
  fst r = Ok true
  /\ get (fs (snd r)) (new_dir ++ [marker_name])
     <> Some (File (marker_text_spec old_dir backup_ex new_dir clock_marker)).
Proof. vm_compute. split; [reflexivity|discriminate]. Qed.

(** ** A second call *)

Lemma path_eqb_eq (p q : path) : path_eqb p q = true -> p = q.
Proof.
  revert q. induction p as [|n p IH]; intros [|m q]; simpl; try discriminate.
  - reflexivity.
  - rewrite andb_true_iff. intros [E H]. apply String.eqb_eq in E.
    f_equal; auto.
Qed.

Lemma shutil_move_missing_source (e b : path) s :
  get (fs s) e = None ->
  shutil_move e b s = (Raise (missing_source_error (fs s) e b), s).
Proof.
  intros He. unfold shutil_move, missing_source_error. mrun.
  destruct (isdir (fs s) b) eqn:Eb; cbn [andb].
  - destruct (path_eqb e b) eqn:Eq.
    + apply path_eqb_eq in Eq. subst b. unfold isdir in Eb. now rewrite He in Eb.
    + destruct (exists_ (fs s) (b ++ [basename e])); [reflexivity|].
      unfold move_to, os_rename. mrun. rewrite !He. reflexivity.
  - unfold move_to, os_rename. mrun. rewrite !He. reflexivity.
Qed.

(** C5, as the code has it: a call that finds nothing at the source, as the
    second of two calls does, returns [False] and leaves the file system,
    backup and target included, as it found it; the error it logs is the
    [FileNotFoundError] for the source, unless the backup directory holds an
    entry with the source's base name, when it is [shutil]'s error for the
    destination path that exists already. *)
Theorem second_migration_fails_at_the_move :
  forall now1 now2 (e b f : path) s0 s1,
    perform_migration now1 e b f s0 = (Ok true, s1) ->
    get (fs s1) e = None ->
    perform_migration now2 e b f s1
    = (Ok false,
       mkState (fs s1)
         (log s1 ++ [LogInfo (msg_moving e b);
                     LogError "Migration failed" (missing_source_error (fs s1) e b)])).
Proof.
  intros now1 now2 e b f s0 s1 _ He.
  unfold perform_migration, try_except, try_catch, migration_steps.
  unfold bind at 1. unfold emit at 1. unfold bind at 1.
  rewrite shutil_move_missing_source by exact He.
  unfold is_Exception. mrun. simpl. now rewrite <- app_assoc.
Qed.

Lemma second_migration_fails_at_the_move_witness :
  let s1 := snd (perform_migration clock_marker old_dir backup_ex new_dir
                   (mkState (home_with_config config_mainnet) [])) in
  perform_migration clock_marker old_dir backup_ex new_dir s1
  = (Ok false,
     mkState (fs s1)
       (log s1 ++ [LogInfo (msg_moving old_dir backup_ex);
                   LogError "Migration failed"
                     (missing_source_error (fs s1) old_dir backup_ex)])).
Proof.
  apply (second_migration_fails_at_the_move clock_marker clock_marker
           old_dir backup_ex new_dir
           (mkState (home_with_config config_mainnet) [])).
  - vm_compute. reflexivity.
  - vm_compute. reflexivity.
Defined.

(** C5 as stated fails: the source held an entry named like itself, the
    first call succeeds and leaves nothing at the source, and the error of
    the second call is about the destination, not about the missing
    source. *)
Lemma second_migration_error_names_the_destination :
  let r1 := perform_migration clock_marker old_dir backup_ex new_dir
              (mkState home_nested []) in
  let r2 := perform_migration clock_marker old_dir backup_ex new_dir (snd r1) in
  fst r1 = Ok true
  /\ get (fs (snd r1)) old_dir = None
  /\ fst r2 = Ok false
  /\ last (log (snd r2)) (LogInfo "")
     = LogError "Migration failed"
         (MoveError "Destination path already exists" (backup_ex ++ [".electrum"]))
  /\ ~ In (LogError "Migration failed" (OSError ENOENT old_dir)) (log (snd r2)).
Proof.
  vm_compute. repeat split; try reflexivity.
  intros H. repeat (destruct H as [H|H]; [discriminate|]). exact H.
Qed.

(** ** Nothing is deleted after the move *)

Lemma grows_refl a : grows a a.
Proof. intros q H. exact H. Qed.

Lemma grows_trans a b c : grows a b -> grows b c -> grows a c.
Proof. intros H1 H2 q H. apply H2, H1, H. Qed.

Lemma grows_leaf a v :
  match a with Dir _ => False | _ => True end -> grows a v.
Proof.
  intros Ha [|n q] H; [discriminate|].
  destruct a; try contradiction; simpl in H; congruence.
Qed.

Lemma grows_upsert n v es :
  (forall o, assoc n es = Some o -> grows o v) ->
  grows (Dir es) (Dir (upsert n v es)).
Proof.
  intros Hv [|m q] H; [discriminate|]. simpl in *.
  destruct (String.eqb m n) eqn:E.
  - apply String.eqb_eq in E. subst m. rewrite assoc_upsert_same.
    destruct (assoc n es) as [o|]; [|congruence]. now apply (Hv o).
  - now rewrite assoc_upsert_other.
Qed.

Lemma put_grows (p : path) : forall t v t',
  put t p v = Some t' ->
  (forall o, get t p = Some o -> grows o v) ->
  grows t t'.
Proof.
  induction p as [|n q IH]; simpl; intros t v t' H Hv.
  - inversion H; subst. now apply Hv.
  - destruct t as [| | |es]; try discriminate.
    destruct (assoc n es) as [c|] eqn:Ea.
    + destruct (put c q v) as [c'|] eqn:Ep; [|discriminate].
      inversion H; subst. apply grows_upsert. intros o Ho.
      rewrite Ea in Ho. inversion Ho; subst o. eapply IH; eauto.
    + destruct (match q with [] => Some v | _ :: _ => None end); [|discriminate].
      inversion H; subst. apply grows_upsert. intros o Ho. congruence.
Qed.

Lemma makedirs_grows (p : path) : forall t t',
  makedirs t p = Some t' -> grows t t'.
Proof.
  induction p as [|n q IH]; simpl; intros t t' H; [discriminate|].
  destruct t as [| | |es]; try discriminate.
  destruct (assoc n es) as [c|] eqn:Ea.
  - destruct q as [|m q']; [discriminate|].
    destruct (makedirs c (m :: q')) as [c'|] eqn:Em; [|discriminate].
    inversion H; subst. apply grows_upsert. intros o Ho.
    rewrite Ea in Ho. inversion Ho; subst o. now apply IH.
  - destruct q as [|m q'].
    + inversion H; subst. apply grows_upsert. intros o Ho. congruence.
    + destruct (makedirs (Dir []) (m :: q')) as [c'|]; [|discriminate].
      inversion H; subst. apply grows_upsert. intros o Ho. congruence.
Qed.

Lemma copy2_file_grows srcp dstp d old v errs :
  copy2_file srcp dstp d old = (Some v, errs) ->
  forall o, old = Some o -> grows o v.
Proof.
  unfold copy2_file. intros H o ->.
  destruct o as [d'| | |cs]; try discriminate.
  - inversion H; subst. now apply grows_leaf.
  - inversion H; subst. now apply grows_leaf.
  - destruct (assoc (basename srcp) cs) as [[| | |]|] eqn:Ea; try discriminate;
      inversion H; subst; apply grows_upsert; intros o Ho;
      rewrite Ea in Ho; inversion Ho; subst o; now apply grows_leaf.
Qed.

Lemma copytree_node_grows ignore t0 c : forall srcp dstp old v errs,
  copytree_node ignore t0 srcp dstp c old = (Some v, errs) ->
  forall o, old = Some o -> grows o v.
Proof.
  induction c as [d| | |es IH] using node_rect'; intros srcp dstp old v errs H o Ho.
  - simpl in H. eapply copy2_file_grows; eauto.
  - discriminate.
  - discriminate.
  - rewrite copytree_node_Dir in H. subst old.
    destruct o as [| | |ds]; try discriminate.
    remember (ignore t0 srcp (map fst es)) as ign eqn:Ei. clear Ei.
    destruct (copytree_entries ignore t0 ign srcp dstp es ds) as [ds' e'] eqn:E.
    inversion H; subst. clear H.
    revert ds ds' errs E. induction es as [|[n c] r IHr]; simpl; intros ds ds' errs E.
    + inversion E; subst. apply grows_refl.
    + inversion IH as [|x y Hc Hr]; subst. simpl in Hc.
      destruct (mem n ign); [now apply (IHr Hr) in E|].
      destruct (copytree_node ignore t0 (srcp ++ [n]) (dstp ++ [n]) c (assoc n ds))
        as [v e1] eqn:Ec.
      destruct (copytree_entries ignore t0 ign srcp dstp r _) as [ds2 e2] eqn:Er.
      inversion E; subst. apply (IHr Hr) in Er.
      eapply grows_trans; [|exact Er].
      destruct v as [v|]; [|apply grows_refl].
      apply grows_upsert. intros o Ho. eapply Hc; eauto.
Qed.

Lemma makedirs_or_raise_grows p s r s' :
  makedirs_or_raise p s = (r, s') -> grows (fs s) (fs s').
Proof.
  unfold makedirs_or_raise. mrun.
  destruct (makedirs (fs s) p) as [t'|] eqn:E; mrun; intros H; inversion H; subst.
  - simpl. now apply (makedirs_grows p).
  - apply grows_refl.
Qed.

Lemma make_dir_grows p s r s' :
  make_dir p s = (r, s') -> grows (fs s) (fs s').
Proof.
  unfold make_dir. mrun. destruct (exists_ (fs s) p).
  - mrun. intros H; inversion H; subst. apply grows_refl.
  - apply makedirs_or_raise_grows.
Qed.

Lemma copy_into_grows ignore t0 src dst es t1 v errs t2 :
  copytree_node ignore t0 src dst (Dir es) (get t1 dst) = (Some v, errs) ->
  put t1 dst v = Some t2 -> grows t1 t2.
Proof.
  intros Hc Hp. apply (put_grows dst _ _ _ Hp). intros o Ho.
  eapply copytree_node_grows; eauto.
Qed.

Lemma copytree_into_grows ignore t src dst es s r s' :
  copytree_into ignore t src dst es s = (r, s') -> grows (fs s) (fs s').
Proof.
  unfold copytree_into. mrun.
  destruct (copytree_node ignore t src dst (Dir es) (get (fs s) dst))
    as [[v|] errs] eqn:Ec.
  - destruct (put (fs s) dst v) as [t2|] eqn:Ep; mrun.
    + destruct errs; intros H; inversion H; subst; simpl;
        eapply copy_into_grows; eauto.
    + intros H; inversion H; subst. apply grows_refl.
  - mrun. intros H; inversion H; subst. apply grows_refl.
Qed.

Lemma shutil_copytree_grows ignore src dst s r s' :
  shutil_copytree ignore src dst s = (r, s') -> grows (fs s) (fs s').
Proof.
  unfold shutil_copytree. mrun.
  destruct (get (fs s) src) as [[| | |es]|] eqn:Es; mrun;
    try (intros H; inversion H; subst; apply grows_refl).
  destruct (get (fs s) dst) as [[| | |ds]|] eqn:Ed; mrun;
    try (intros H; inversion H; subst; apply grows_refl).
  - apply copytree_into_grows.
  - destruct (makedirs_or_raise dst s) as [[[]|x] s1] eqn:Em.
    + intros H. apply copytree_into_grows in H. eapply grows_trans; [|exact H].
      eapply makedirs_or_raise_grows; eauto.
    + intros H. inversion H; subst. eapply makedirs_or_raise_grows; eauto.
Qed.

Lemma write_file_grows p data s r s' :
  write_file p data s = (r, s') -> grows (fs s) (fs s').
Proof.
  destruct r as [[]|x].
  - intros H. apply write_file_ok in H. destruct H as (Hp & _ & Hk).
    apply (put_grows p _ _ _ Hp). intros o Ho. rewrite Ho in Hk.
    apply grows_leaf. destruct o; auto.
  - unfold write_file. mrun.
    destruct (get (fs s) p) as [[| | |]|]; mrun;
      try (intros H; inversion H; subst; apply grows_refl);
      (destruct p; [|destruct (get (fs s) (parent _)) as [[| | |]|]]; mrun;
       try (intros H; inversion H; subst; apply grows_refl));
      (destruct (put (fs s) _ (File data)); mrun;
       intros H; inversion H; subst; apply grows_refl).
Qed.

Lemma monotone_bind {A B} (m : M A) (k : A -> M B) :
  monotone m -> (forall a, monotone (k a)) -> monotone (bind m k).
Proof.
  intros Hm Hk s r s'. unfold bind.
  destruct (m s) as [[a|x] s1] eqn:E; intros H.
  - eapply grows_trans; [eapply Hm; eauto|eapply Hk; eauto].
  - inversion H; subst. eapply Hm; eauto.
Qed.

Lemma monotone_emit ev : monotone (emit ev).
Proof. intros s r s' H. inversion H; subst. apply grows_refl. Qed.

Lemma monotone_ret {A} (a : A) : monotone (ret a).
Proof. intros s r s' H. inversion H; subst. apply grows_refl. Qed.

Lemma steps_after_move_monotone now e b f :
  monotone (steps_after_move now e b f).
Proof.
  unfold steps_after_move.
  apply monotone_bind; [intros s r s'; apply make_dir_grows|intros _].
  apply monotone_bind; [apply monotone_emit|intros _].
  apply monotone_bind; [intros s r s'; apply shutil_copytree_grows|intros _].
  apply monotone_bind; [intros s r s'; apply write_file_grows|intros _].
  apply monotone_ret.
Qed.

Lemma migration_steps_unfold now e b f s :
  migration_steps now e b f s
  = bind (shutil_move e b) (fun _ => steps_after_move now e b f)
         (logged (LogInfo (msg_moving e b)) s).
Proof. reflexivity. Qed.

(** ** The move leaves something at the backup path *)

Lemma get_prefix (p : path) : forall q t,
  is_prefix p q = true -> get t q <> None -> get t p <> None.
Proof.
  induction p as [|n p IH]; intros q t Hp Hq; simpl.
  - discriminate.
  - destruct q as [|m q]; [discriminate|]. simpl in Hp, Hq.
    apply andb_true_iff in Hp. destruct Hp as [E Hp].
    apply String.eqb_eq in E. subst m.
    destruct t as [| | |es]; try congruence.
    destruct (assoc n es); [eauto|congruence].
Qed.

Lemma is_prefix_app (p q : path) : is_prefix p (p ++ q) = true.
Proof.
  induction p as [|n p IH]; simpl; [reflexivity|].
  now rewrite String.eqb_refl, IH.
Qed.

Lemma is_prefix_refl (p : path) : is_prefix p p = true.
Proof. rewrite <- (app_nil_r p) at 2. apply is_prefix_app. Qed.

Lemma remove_keeps (e : path) : forall q t t',
  remove t e = Some t' -> is_prefix e q = false ->
  get t q <> None -> get t' q <> None.
Proof.
  induction e as [|n e IH]; intros q t t' Hr Hp Hq; [discriminate|].
  destruct q as [|m q]; [discriminate|].
  simpl in Hr, Hp, Hq. destruct t as [| | |es]; try discriminate.
  destruct (String.eqb n m) eqn:E; simpl in Hp.
  - apply String.eqb_eq in E. subst m.
    destruct e as [|k e]; [discriminate|].
    destruct (assoc n es) as [c|] eqn:Ea; [|discriminate].
    destruct (remove c (k :: e)) as [c'|] eqn:Er; [|discriminate].
    inversion Hr; subst. simpl. rewrite assoc_upsert_same. eapply IH; eauto.
  - assert (Em : String.eqb m n = false) by now apply eqb_sym_false.
    destruct e as [|k e].
    + destruct (assoc n es); [|discriminate]. inversion Hr; subst. simpl.
      now rewrite assoc_delete_other.
    + destruct (assoc n es) as [c|]; [|discriminate].
      destruct (remove c (k :: e)) as [c'|]; [|discriminate].
      inversion Hr; subst. simpl. now rewrite assoc_upsert_other.
Qed.

Lemma os_rename_dst t (e r : path) t' :
  os_rename t e r = Ok t' -> get t' r <> None.
Proof.
  unfold os_rename.
  destruct (get t e) as [c|] eqn:Ee; [|discriminate].
  destruct r as [|m r0] eqn:Er; [discriminate|]. rewrite <- Er in *.
  destruct (get t (parent r)) as [[| | |]|]; try discriminate.
  destruct (path_eqb e r) eqn:Eq.
  - apply path_eqb_eq in Eq. subst e. intros H. inversion H; subst. congruence.
  - destruct (is_prefix e r); [discriminate|].
    assert (Hgo : match remove t e with
                  | Some t1 => match put t1 r c with
                               | Some t2 => Ok t2
                               | None => Raise (OSError ENOENT r)
                               end
                  | None => Raise (OSError EINVAL e)
                  end = Ok t' -> get t' r <> None).
    { destruct (remove t e) as [t1|]; [|discriminate].
      destruct (put t1 r c) as [t2|] eqn:Ep; [|discriminate].
      intros H. inversion H; subst. apply get_put_same in Ep. congruence. }
    destruct c as [| | |es]; destruct (get t r) as [[| | |[|]]|];
      try discriminate; exact Hgo.
Qed.

Lemma move_to_dst (e r b : path) s s1 :
  move_to e r b s = (Ok tt, s1) -> is_prefix b r = true ->
  get (fs s1) b <> None.
Proof.
  unfold move_to. mrun. intros H Hb.
  destruct (os_rename (fs s) e r) as [t'|why] eqn:Er.
  - inversion H; subst. simpl. apply (get_prefix b r); [exact Hb|].
    eapply os_rename_dst; eauto.
  - destruct (get (fs s) e) as [[| | |es]|]; try discriminate.
    destruct (is_prefix e b) eqn:Ep; [discriminate|].
    revert H. mrun.
    destruct (makedirs_or_raise r s) as [[[]|x] s2]; [|discriminate].
    destruct (copy_fresh e r (Dir es)) as [[v|] errs]; [|discriminate].
    destruct (put (fs s2) r v) as [t2|] eqn:Eput; [|discriminate].
    mrun. destruct errs; [|discriminate].
    destruct (remove t2 e) as [t3|] eqn:Erm; [|discriminate].
    intros H. inversion H; subst. simpl.
    apply (remove_keeps e b t2 t3 Erm Ep).
    apply (get_prefix b r); [exact Hb|].
    apply get_put_same in Eput. congruence.
Qed.

Lemma shutil_move_dst (e b : path) s s1 :
  shutil_move e b s = (Ok tt, s1) -> get (fs s1) b <> None.
Proof.
  unfold shutil_move. mrun.
  destruct (isdir (fs s) b) eqn:Eb.
  - destruct (path_eqb e b).
    + intros H. inversion H; subst. unfold isdir in Eb.
      destruct (get (fs s1) b); [discriminate|discriminate].
    + destruct (exists_ (fs s) (b ++ [basename e])); [discriminate|].
      intros H. apply (move_to_dst _ _ _ _ _ H). apply is_prefix_app.
  - intros H. apply (move_to_dst _ _ _ _ _ H). apply is_prefix_refl.
Qed.

(** C2: [perform_migration] returns a boolean for every input and never
    raises.  An exception raised by any one of the four steps (the move,
    the creation of the target, the copy, the writing of the marker) ends
    the call at that step: the result is [False], the state is the one the
    step left with one more record in the log, the error carrying that very
    exception; when all four steps return, the result is [True] and nothing
    more is logged.  So [False] always comes with the error logged last.
    Once the move of step 1 has completed there is something at the backup
    path, and nothing that exists then is deleted by the later steps, so the
    backup is still on disk when the function returns, with any result. *)
Theorem perform_migration_never_raises_and_keeps_backup :
  forall now (e b f : path) s,
  exists v s',
    perform_migration now e b f s = (Ok v, s')
    /\ (forall x s1,
          shutil_move e b (logged (LogInfo (msg_moving e b)) s) = (Raise x, s1) ->
          v = false /\ s' = logged (LogError "Migration failed" x) s1)
    /\ (forall s1,
          shutil_move e b (logged (LogInfo (msg_moving e b)) s) = (Ok tt, s1) ->
          (forall x s2,
             make_dir f s1 = (Raise x, s2) ->
             v = false /\ s' = logged (LogError "Migration failed" x) s2)
          /\ (forall s2,
                make_dir f s1 = (Ok tt, s2) ->
                (forall x s3,
                   shutil_copytree ignore_sockets b f
                     (logged (LogInfo (msg_copying b f)) s2) = (Raise x, s3) ->
                   v = false /\ s' = logged (LogError "Migration failed" x) s3)
                /\ (forall s3,
                      shutil_copytree ignore_sockets b f
                        (logged (LogInfo (msg_copying b f)) s2) = (Ok tt, s3) ->
                      (forall x s4,
                         write_file (f ++ [marker_name]) (marker_text e b f now) s3
                         = (Raise x, s4) ->
                         v = false
                         /\ s' = logged (LogError "Migration failed" x) s4)
                      /\ (forall s4,
                            write_file (f ++ [marker_name])
                              (marker_text e b f now) s3 = (Ok tt, s4) ->
                            v = true /\ s' = s4))))
    /\ (v = false ->
        exists x, last (log s') (LogInfo "") = LogError "Migration failed" x)
    /\ (forall s1,
          shutil_move e b (logged (LogInfo (msg_moving e b)) s) = (Ok tt, s1) ->
          get (fs s1) b <> None
          /\ grows (fs s1) (fs s')
          /\ get (fs s') b <> None).
Proof.
  intros now e b f s.
  assert (Hkeep : forall r s2 s1,
            migration_steps now e b f s = (r, s2) ->
            shutil_move e b (logged (LogInfo (msg_moving e b)) s) = (Ok tt, s1) ->
            get (fs s1) b <> None /\ grows (fs s1) (fs s2)
            /\ get (fs s2) b <> None).
  { intros r s2 s1 Hs Hm. rewrite migration_steps_unfold in Hs.
    unfold bind in Hs. rewrite Hm in Hs.
    apply steps_after_move_monotone in Hs.
    pose proof (shutil_move_dst _ _ _ _ Hm) as Hb. auto. }
  assert (Hstep : forall r s2,
            perform_migration now e b f s = (r, s2) ->
            (forall x s1,
               shutil_move e b (logged (LogInfo (msg_moving e b)) s) = (Raise x, s1) ->
               r = Ok false /\ s2 = logged (LogError "Migration failed" x) s1)
            /\ (forall s1,
               shutil_move e b (logged (LogInfo (msg_moving e b)) s) = (Ok tt, s1) ->
               (forall x s3, make_dir f s1 = (Raise x, s3) ->
                  r = Ok false /\ s2 = logged (LogError "Migration failed" x) s3)
               /\ (forall s3, make_dir f s1 = (Ok tt, s3) ->
                  (forall x s4,
                     shutil_copytree ignore_sockets b f
                       (logged (LogInfo (msg_copying b f)) s3) = (Raise x, s4) ->
                     r = Ok false /\ s2 = logged (LogError "Migration failed" x) s4)
                  /\ (forall s4,
                     shutil_copytree ignore_sockets b f
                       (logged (LogInfo (msg_copying b f)) s3) = (Ok tt, s4) ->
                     (forall x s5,
                        write_file (f ++ [marker_name]) (marker_text e b f now) s4
                        = (Raise x, s5) ->
                        r = Ok false
                        /\ s2 = logged (LogError "Migration failed" x) s5)
                     /\ (forall s5,
                        write_file (f ++ [marker_name]) (marker_text e b f now) s4
                        = (Ok tt, s5) ->
                        r = Ok true /\ s2 = s5))))).
  { intros r s2. unfold perform_migration, migration_steps. mrun.
    fold (logged (LogInfo (msg_moving e b)) s).
    intros H. split.
    - intros x s1 Hm. rewrite Hm in H. simpl in H. inversion H. auto.
    - intros s1 Hm. rewrite Hm in H. split.
      + intros x s3 Hd. rewrite Hd in H. simpl in H. inversion H. auto.
      + intros s3 Hd. rewrite Hd in H.
        fold (logged (LogInfo (msg_copying b f)) s3) in H. split.
        * intros x s4 Hc. rewrite Hc in H. simpl in H. inversion H. auto.
        * intros s4 Hc. rewrite Hc in H. split.
          -- intros x s5 Hw. rewrite Hw in H. simpl in H. inversion H. auto.
          -- intros s5 Hw. rewrite Hw in H. inversion H. auto. }
  destruct (perform_migration_cases now e b f s)
    as [(s' & Hs & H)|(x & s' & Hs & H)].
  - exists true, s'. split; [exact H|].
    destruct (Hstep _ _ H) as [H1 H2].
    split; [|split; [|split; [discriminate|]]].
    + intros x s1 Hm. destruct (H1 x s1 Hm) as [E _]. discriminate.
    + intros s1 Hm. destruct (H2 s1 Hm) as [H3 H4]. split.
      * intros x s2 Hd. destruct (H3 x s2 Hd) as [E _]. discriminate.
      * intros s2 Hd. destruct (H4 s2 Hd) as [H5 H6]. split.
        -- intros x s3 Hc. destruct (H5 x s3 Hc) as [E _]. discriminate.
        -- intros s3 Hc. destruct (H6 s3 Hc) as [H7 H8]. split.
           ++ intros x s4 Hw. destruct (H7 x s4 Hw) as [E _]. discriminate.
           ++ intros s4 Hw. destruct (H8 s4 Hw) as [_ E]. auto.
    + intros s1 Hm. eapply Hkeep; eauto.
  - eexists false, _. split; [exact H|].
    destruct (Hstep _ _ H) as [H1 H2].
    split; [|split; [|split]].
    + intros x0 s1 Hm. destruct (H1 x0 s1 Hm) as [_ E]. auto.
    + intros s1 Hm. destruct (H2 s1 Hm) as [H3 H4]. split.
      * intros x0 s2 Hd. destruct (H3 x0 s2 Hd) as [_ E]. auto.
      * intros s2 Hd. destruct (H4 s2 Hd) as [H5 H6]. split.
        -- intros x0 s3 Hc. destruct (H5 x0 s3 Hc) as [_ E]. auto.
        -- intros s3 Hc. destruct (H6 s3 Hc) as [H7 H8]. split.
           ++ intros x0 s4 Hw. destruct (H7 x0 s4 Hw) as [_ E]. auto.
           ++ intros s4 Hw. destruct (H8 s4 Hw) as [E _]. discriminate.
    + intros _. exists x. simpl. now rewrite last_last.
    + intros s1 Hm. simpl. eapply Hkeep; eauto.
Qed.

(** ** Paths apart from one another *)

Lemma apart_sym (p : path) : forall q, apart p q = apart q p.
Proof.
  induction p as [|n p IH]; intros [|m q]; simpl; try reflexivity.
  rewrite (String.eqb_sym m n). destruct (String.eqb n m); auto.
Qed.


Lemma apart_not_prefix (p : path) : forall q,
  apart p q = true -> is_prefix p q = false.
Proof.
  induction p as [|n p IH]; intros [|m q] H; simpl in *; try discriminate.
  destruct (String.eqb n m); simpl; auto.
Qed.

Lemma apart_not_eq (p q : path) : apart p q = true -> path_eqb p q = false.
Proof.
  revert q. induction p as [|n p IH]; intros [|m q] H; simpl in *;
    try discriminate.
  destruct (String.eqb n m); simpl; auto.
Qed.

Lemma get_remove_same (e : path) : forall t t',
  remove t e = Some t' -> get t' e = None.
Proof.
  induction e as [|n e IH]; intros t t' H; [discriminate|].
  simpl in H. destruct t as [| | |es]; try discriminate.
  destruct e as [|k e].
  - destruct (assoc n es); [|discriminate]. inversion H; subst. simpl.
    now rewrite assoc_delete_same.
  - destruct (assoc n es) as [c|]; [|discriminate].
    destruct (remove c (k :: e)) as [c'|] eqn:Er; [|discriminate].
    inversion H; subst.
    change (get (Dir (upsert n c' es)) (n :: k :: e))
      with (match assoc n (upsert n c' es) with
            | Some c0 => get c0 (k :: e)
            | None => None
            end).
    rewrite assoc_upsert_same. eauto.
Qed.

Lemma get_remove_apart (e : path) : forall q t t',
  apart e q = true -> remove t e = Some t' -> get t' q = get t q.
Proof.
  induction e as [|n e IH]; intros [|m q] t t' Ha H; simpl in Ha;
    try discriminate.
  simpl in H. destruct t as [| | |es]; try discriminate.
  destruct (String.eqb n m) eqn:E.
  - apply String.eqb_eq in E. subst m.
    destruct e as [|k e]; [discriminate|].
    destruct (assoc n es) as [c|] eqn:Ea; [|discriminate].
    destruct (remove c (k :: e)) as [c'|] eqn:Er; [|discriminate].
    inversion H; subst. simpl. rewrite assoc_upsert_same, Ea. eauto.
  - assert (Em : String.eqb m n = false) by now apply eqb_sym_false.
    destruct e as [|k e].
    + destruct (assoc n es); [|discriminate]. inversion H; subst. simpl.
      now rewrite assoc_delete_other.
    + destruct (assoc n es) as [c|]; [|discriminate].
      destruct (remove c (k :: e)) as [c'|]; [|discriminate].
      inversion H; subst. simpl. now rewrite assoc_upsert_other.
Qed.

Lemma makedirs_get (p : path) : forall t t',
  makedirs t p = Some t' -> get t' p = Some (Dir []).
Proof.
  induction p as [|n q IH]; intros t t' H; [discriminate|].
  simpl in H. destruct t as [| | |es]; try discriminate.
  destruct (assoc n es) as [c|].
  - destruct q as [|m q']; [discriminate|].
    destruct (makedirs c (m :: q')) as [c'|] eqn:Em; [|discriminate].
    inversion H; subst.
    change (get (Dir (upsert n c' es)) (n :: m :: q'))
      with (match assoc n (upsert n c' es) with
            | Some c0 => get c0 (m :: q')
            | None => None
            end).
    rewrite assoc_upsert_same. eauto.
  - destruct q as [|m q'].
    + inversion H; subst. simpl. now rewrite assoc_upsert_same.
    + destruct (makedirs (Dir []) (m :: q')) as [c'|] eqn:Em; [|discriminate].
      inversion H; subst.
      change (get (Dir (upsert n c' es)) (n :: m :: q'))
        with (match assoc n (upsert n c' es) with
              | Some c0 => get c0 (m :: q')
              | None => None
              end).
      rewrite assoc_upsert_same. eauto.
Qed.

Lemma get_empty_dir (q : path) : q <> [] -> get (Dir []) q = None.
Proof. destruct q; [congruence|reflexivity]. Qed.

Lemma makedirs_apart (p : path) : forall q t t',
  apart p q = true -> makedirs t p = Some t' -> get t' q = get t q.
Proof.
  induction p as [|n p IH]; intros [|m q] t t' Ha H; simpl in Ha;
    try discriminate.
  simpl in H. destruct t as [| | |es]; try discriminate.
  destruct (String.eqb n m) eqn:E.
  - apply String.eqb_eq in E. subst m.
    destruct (assoc n es) as [c|] eqn:Ea.
    + destruct p as [|k p']; [discriminate|].
      destruct (makedirs c (k :: p')) as [c'|] eqn:Em; [|discriminate].
      inversion H; subst. simpl. rewrite assoc_upsert_same, Ea. eauto.
    + destruct p as [|k p']; [discriminate|].
      destruct (makedirs (Dir []) (k :: p')) as [c'|] eqn:Em; [|discriminate].
      inversion H; subst. simpl. rewrite assoc_upsert_same, Ea.
      rewrite (IH q (Dir []) c' Ha Em).
      apply get_empty_dir. destruct q; [discriminate|discriminate].
  - assert (Em : String.eqb m n = false) by now apply eqb_sym_false.
    assert (Hu : forall c', get (Dir (upsert n c' es)) (m :: q)
                            = get (Dir es) (m :: q)).
    { intros c'. simpl. now rewrite assoc_upsert_other. }
    destruct (assoc n es) as [c|].
    + destruct p as [|k p']; [discriminate|].
      destruct (makedirs c (k :: p')) as [c'|]; [|discriminate].
      inversion H; subst. apply Hu.
    + destruct p as [|k p'].
      * inversion H; subst. apply Hu.
      * destruct (makedirs (Dir []) (k :: p')) as [c'|]; [|discriminate].
        inversion H; subst. apply Hu.
Qed.


(** ** The copy into a fresh directory *)











(** ** The move of a directory to an unused path *)

Lemma apart_nonempty_r (p q : path) : apart p q = true -> q <> [].
Proof. destruct p, q; simpl; congruence. Qed.



(** ** Steps 2 to 4 on a fresh target *)

Lemma make_dir_fresh (f : path) s s2 :
  get (fs s) f = None -> make_dir f s = (Ok tt, s2) ->
  get (fs s2) f = Some (Dir [])
  /\ (forall q, apart f q = true -> get (fs s2) q = get (fs s) q)
  /\ log s2 = log s.
Proof.
  intros Hf. unfold make_dir, exists_. mrun. rewrite Hf.
  unfold makedirs_or_raise. mrun.
  destruct (makedirs (fs s) f) as [t'|] eqn:Em; mrun; [|discriminate].
  intros H. inversion H; subst. simpl.
  split; [now apply (makedirs_get f (fs s))|]. split; [|reflexivity].
  intros q Hq. now apply (makedirs_apart f q).
Qed.



(** ** Counting files and sockets *)








(** ** The migration of a directory *)




(** The backup path has to be unused as well: [shutil.move] puts the source
    inside a directory that is already there, and the copy then takes the
    whole of that directory. *)
Lemma migration_moves_into_existing_backup :
  let r := perform_migration clock_marker old_dir backup_ex new_dir
             (mkState home_with_backup []) in
  fst r = Ok true
  /\ get (fs (snd r)) backup_ex <> Some (Dir wallet_with_sockets)
  /\ get (fs (snd r)) (backup_ex ++ [".electrum"]) = Some (Dir wallet_with_sockets)
  /\ get (fs (snd r)) (new_dir ++ ["notes"]) = Some (File "mine").
Proof.
  vm_compute. repeat split. discriminate.
Qed.

(** * Further properties of the code *)

(** ** The detector reads only *)

Lemma detector_config_cases (d : path) (t : node) :
  exists_ t d = false
  \/ (exists_ t d = true /\ exists_ t (d ++ ["config"]) = false)
  \/ (exists data, get t (d ++ ["config"]) = Some (File data))
  \/ (exists c, get t (d ++ ["config"]) = Some c
                /\ match c with Dir _ | Sock => True | _ => False end).
Proof.
  destruct (exists_ t d) eqn:Ed; [|now left]. right.
  destruct (get t (d ++ ["config"])) as [[data| | |es]|] eqn:Ec.
  - right. left. eauto.
  - right. right. exists Sock. auto.
  - left. split; [reflexivity|]. unfold exists_. now rewrite Ec.
  - right. right. exists (Dir es). auto.
  - left. split; [reflexivity|]. unfold exists_. now rewrite Ec.
Qed.

(** [is_factwallet_data] changes nothing: whatever it returns or raises,
    the file system and the log are as before. *)
Theorem detector_is_read_only :
  forall json_load (d : path) s r s',
    is_factwallet_data json_load d s = (r, s') -> s' = s.
Proof.
  intros json_load d s r s' H.
  destruct (detector_config_cases d (fs s))
    as [Hd|[[Hd Hc]|[[data Hc]|[c [Hc Hk]]]]].
  - rewrite (detector_no_directory _ _ _ Hd) in H. now inversion H.
  - rewrite (detector_no_config _ _ _ Hd Hc) in H. now inversion H.
  - rewrite (detector_on_file _ _ _ _ Hc) in H.
    destruct (json_load data) as [[| | | | |ms]|e].
    1-5: now inversion H.
    + destruct (member "blockchain_preferred_block" ms) as [[| | | | |bs]|];
        now inversion H.
    + destruct (catches_json_or_os e); now inversion H.
  - rewrite (detector_unopenable _ _ _ _ Hc Hk) in H. now inversion H.
Qed.

Lemma detector_is_read_only_witness :
  snd (is_factwallet_data Loader.json_load_text old_dir
         (mkState (home_with_config config_null_block) []))
  = mkState (home_with_config config_null_block) [].
Proof.
  apply (detector_is_read_only Loader.json_load_text old_dir _
           (fst (is_factwallet_data Loader.json_load_text old_dir
                   (mkState (home_with_config config_null_block) [])))).
  vm_compute. reflexivity.
Defined.

(** [is_factwallet_data] answers true in one situation only: the config is
    a regular file that decodes to an object whose
    [blockchain_preferred_block] is an object whose [hash] is a string equal
    to the mainnet or to the testnet genesis hash. *)
Theorem detector_true_iff :
  forall json_load (d : path) s,
    fst (is_factwallet_data json_load d s) = Ok true
    <-> exists data ms bs h,
          get (fs s) (d ++ ["config"]) = Some (File data)
          /\ json_load data = Ok (JObj ms)
          /\ member "blockchain_preferred_block" ms = Some (JObj bs)
          /\ member "hash" bs = Some (JStr h)
          /\ (h = FACT_MAINNET_GENESIS \/ h = FACT_TESTNET_GENESIS).
Proof.
  intros json_load d s. split.
  - intros H.
    destruct (detector_config_cases d (fs s))
      as [Hd|[[Hd Hc]|[[data Hc]|[c [Hc Hk]]]]].
    + rewrite (detector_no_directory _ _ _ Hd) in H. discriminate.
    + rewrite (detector_no_config _ _ _ Hd Hc) in H. discriminate.
    + rewrite (detector_on_file _ _ _ _ Hc) in H.
      destruct (json_load data) as [[| | | | |ms]|e] eqn:Ej; try discriminate.
      * destruct (member "blockchain_preferred_block" ms) as [[| | | | |bs]|] eqn:Eb;
          try discriminate.
        destruct (member "hash" bs) as [[| | |h| |]|] eqn:Eh; simpl in H;
          try discriminate.
        injection H as Hh. rewrite orb_false_r in Hh.
        exists data, ms, bs, h. repeat split; auto.
        apply orb_true_iff in Hh.
        destruct Hh as [Hh|Hh]; apply String.eqb_eq in Hh; auto.
      * destruct (catches_json_or_os e); discriminate.
    + rewrite (detector_unopenable _ _ _ _ Hc Hk) in H. discriminate.
  - intros (data & ms & bs & h & Hc & Hj & Hb & Hh & Hm).
    rewrite (detector_match _ _ _ _ _ _ _ Hc Hj Hb Hh). simpl.
    destruct Hm as [->| ->]; rewrite String.eqb_refl; [reflexivity|].
    now rewrite orb_true_r.
Qed.

(** What leaves [is_factwallet_data] as an exception is never of a class
    its [except] clause names: it is what [json.load] raised besides
    [JSONDecodeError], or the [AttributeError] of a [.get] on a decoded
    value that is not an object. *)
Theorem detector_raises_uncaught_classes_only :
  forall json_load (d : path) s e s',
    is_factwallet_data json_load d s = (Raise e, s') ->
    catches_json_or_os e = false
    /\ exists data,
         get (fs s) (d ++ ["config"]) = Some (File data)
         /\ (json_load data = Raise e
             \/ (e = AttributeError "object has no attribute 'get'"
                 /\ exists cfg, json_load data = Ok cfg)).
Proof.
  intros json_load d s e s' H.
  destruct (detector_config_cases d (fs s))
    as [Hd|[[Hd Hc]|[[data Hc]|[c [Hc Hk]]]]].
  - rewrite (detector_no_directory _ _ _ Hd) in H. discriminate.
  - rewrite (detector_no_config _ _ _ Hd Hc) in H. discriminate.
  - rewrite (detector_on_file _ _ _ _ Hc) in H.
    destruct (json_load data) as [cfg|x] eqn:Ej.
    + assert (He : e = AttributeError "object has no attribute 'get'").
      { destruct cfg as [| | | | |ms]; try (now inversion H).
        destruct (member "blockchain_preferred_block" ms) as [[| | | | |bs]|];
          now inversion H. }
      subst e. split; [reflexivity|]. exists data. split; [exact Hc|].
      right. split; [reflexivity|]. eauto.
    + destruct (catches_json_or_os x) eqn:Ex; [discriminate|].
      inversion H; subst. split; [exact Ex|]. exists data. auto.
  - rewrite (detector_unopenable _ _ _ _ Hc Hk) in H. discriminate.
Qed.

Lemma detector_raises_uncaught_classes_only_witness :
  catches_json_or_os UnicodeDecodeError = false
  /\ exists data,
       get (home_with_config config_not_utf8) (old_dir ++ ["config"])
       = Some (File data)
       /\ (Loader.json_load_text data = Raise UnicodeDecodeError
           \/ (UnicodeDecodeError = AttributeError "object has no attribute 'get'"
               /\ exists cfg, Loader.json_load_text data = Ok cfg)).
Proof.
  apply (detector_raises_uncaught_classes_only Loader.json_load_text old_dir
           (mkState (home_with_config config_not_utf8) []) UnicodeDecodeError
           (mkState (home_with_config config_not_utf8) [])).
  vm_compute. reflexivity.
Defined.

Lemma detector_false_cases_witness :
  is_factwallet_data Loader.json_load_text old_dir
    (mkState (home_with_config "{oops") [])
  = (Ok false, mkState (home_with_config "{oops") []).
Proof.
  apply (detector_false_cases Loader.json_load_text old_dir
           (mkState (home_with_config "{oops") [])).
  right. right. left. exists "{oops". split; vm_compute; reflexivity.
Defined.

(** ** The backup path of the dialog *)






(** For a source the text of which ends in a separator the suffix makes the
    whole of the last component: the backup path names an entry of the
    source directory. *)
Lemma dialog_backup_dir_trailing_separator (p : path) when :
  dialog_backup_dir (p ++ [""]) when
  = p ++ [("-backupByFactWallet-" ++ strftime_compact when)%string].
Proof.
  unfold dialog_backup_dir, add_suffix.
  destruct (p ++ [""]) eqn:E; [destruct p; discriminate|]. rewrite <- E.
  now rewrite removelast_last, last_last.
Qed.



(** ** The button of the dialog *)

(** [do_migrate] never raises.  It runs the executor once on the paths of
    the dialog and shows one message box: when the executor succeeds, the
    information box, with [result] set and the dialog accepted; when it
    fails, the critical box, with [error] set and the dialog rejected.  It
    changes neither the other flag nor the paths, and the file system is as
    the executor left it. *)
Theorem do_migrate_outcome :
  forall now self s,
    let exec := perform_migration now (d_electrum_dir self) (d_backup_dir self)
                  (d_factwallet_dir self) s in
    exists ok d code,
      fst exec = Ok ok
      /\ do_migrate now self s
         = (Ok (d, code),
            logged (if ok then InformationBox "Migration Complete"
                    else CriticalBox "Migration Failed") (snd exec))
      /\ d_result d = (ok || d_result self)
      /\ d_error d = (negb ok || d_error self)
      /\ code = (if ok then Accepted else Rejected)
      /\ d_electrum_dir d = d_electrum_dir self
      /\ d_backup_dir d = d_backup_dir self
      /\ d_factwallet_dir d = d_factwallet_dir self.
Proof.
  intros now self s. cbv zeta.
  destruct (perform_migration_returns now (d_electrum_dir self) (d_backup_dir self)
              (d_factwallet_dir self) s) as [ok [s1 H]].
  unfold do_migrate, bind. rewrite H. exists ok.
  destruct ok; eexists; eexists; (split; [reflexivity|]);
    (split; [reflexivity|]); simpl; repeat split.
Qed.

(** ** The orchestrator: the other skip conditions, and the options *)

(** On Android, with a custom data directory outside portable mode, and
    when there is no old directory, [check_for_migration] returns without
    error after one informational log line; the file system is untouched and
    the dialog is not shown.  On Android this holds whatever the options
    are. *)
Theorem check_for_migration_early_skips :
  forall json_load android user_dir old_user_dir c when now (opts : dict) s,
    (android = true
     \/ (opts <> []
         /\ truthy (dict_get opts "electrum_path" PNone) = true
         /\ truthy (dict_get opts "portable" (PBool false)) = false)
     \/ (exists tgt src,
           locate_dirs user_dir old_user_dir opts
             (dict_get opts "portable" (PBool false)) s = (Ok (tgt, src), s)
           /\ match src with
              | None => True
              | Some e => exists_ (fs s) e = false
              end)) ->
    exists msg,
      check_for_migration json_load android user_dir old_user_dir c when now
        (Some opts) s
      = (Ok tt, logged (LogInfo msg) s).
Proof.
  intros json_load android user_dir old_user_dir c when now opts s H.
  unfold check_for_migration.
  destruct android; [eexists; reflexivity|].
  destruct (_ && _ && _) eqn:Ec; [eexists; reflexivity|].
  destruct H as [H|[(Ho & Hp & Hq)|(tgt & src & HL & Hs)]]; [discriminate| |].
  - rewrite Hp, Hq in Ec. destruct opts; [congruence|discriminate].
  - mrun. rewrite HL. mrun.
    destruct (exists_ (fs s) tgt); [eexists; reflexivity|].
    destruct src as [e|]; [|eexists; reflexivity].
    rewrite Hs. eexists; reflexivity.
Qed.

Lemma check_for_migration_early_skips_witness :
  exists msg,
    check_for_migration Loader.json_load_text false new_dir (Some old_dir)
      Migrate clock_dialog clock_marker
      (Some [("electrum_path", PStr ["srv"; "wallet"])])
      (mkState (home_with_config config_mainnet) [])
    = (Ok tt, logged (LogInfo msg) (mkState (home_with_config config_mainnet) [])).
Proof.
  apply (check_for_migration_early_skips Loader.json_load_text false new_dir
           (Some old_dir) Migrate clock_dialog clock_marker
           [("electrum_path", PStr ["srv"; "wallet"])]
           (mkState (home_with_config config_mainnet) [])).
  right. left. split; [discriminate|]. split; reflexivity.
Defined.

(** In portable mode the options have to carry the data path as a string:
    without the key ['electrum_path'] the subscript raises [KeyError], and
    with a value that is not a string [os.path.dirname] raises [TypeError];
    either exception leaves [check_for_migration], before anything is
    logged or looked up on disk. *)
Theorem check_for_migration_portable_needs_path :
  forall json_load user_dir old_user_dir c when now (opts : dict) s,
    truthy (dict_get opts "portable" (PBool false)) = true ->
    (dict_lookup "electrum_path" opts = None ->
     check_for_migration json_load false user_dir old_user_dir c when now
       (Some opts) s
     = (Raise (KeyError "electrum_path"), s))
    /\ (forall v, dict_lookup "electrum_path" opts = Some v ->
                  (forall p, v <> PStr p) ->
                  check_for_migration json_load false user_dir old_user_dir c
                    when now (Some opts) s
                  = (Raise (TypeError "expected str, bytes or os.PathLike object"),
                     s)).
Proof.
  intros json_load user_dir old_user_dir c when now opts s Hp.
  split; [intros El|intros v El Hv];
    unfold check_for_migration; rewrite Hp, andb_false_r;
    unfold locate_dirs, dict_item; rewrite Hp, El; [reflexivity|].
  destruct v as [| |p]; try reflexivity. now destruct (Hv p).
Qed.

Lemma check_for_migration_portable_needs_path_witness :
  check_for_migration Loader.json_load_text false new_dir (Some old_dir)
    Migrate clock_dialog clock_marker (Some [("portable", PBool true)])
    (mkState (home_with_config config_mainnet) [])
  = (Raise (KeyError "electrum_path"),
     mkState (home_with_config config_mainnet) []).
Proof.
  apply (check_for_migration_portable_needs_path Loader.json_load_text new_dir
           (Some old_dir) Migrate clock_dialog clock_marker
           [("portable", PBool true)]
           (mkState (home_with_config config_mainnet) [])); reflexivity.
Defined.

(** ** What the library steps write *)

Lemma silent_bind {A B} (m : M A) (k : A -> M B) :
  silent m -> (forall a, silent (k a)) -> silent (bind m k).
Proof.
  intros Hm Hk s r s'. unfold bind.
  destruct (m s) as [[a|x] s1] eqn:E; intros H.
  - rewrite (Hk a _ _ _ H). eapply Hm; eauto.
  - inversion H; subst. eapply Hm; eauto.
Qed.

Lemma silent_ret {A} (a : A) : silent (ret a).
Proof. intros s r s' H. now inversion H. Qed.

Lemma silent_raise {A} (x : exn) : silent (@raise A x).
Proof. intros s r s' H. now inversion H. Qed.

Lemma silent_get_fs : silent get_fs.
Proof. intros s r s' H. now inversion H. Qed.

Lemma silent_set_fs t : silent (set_fs t).
Proof. intros s r s' H. now inversion H. Qed.

Lemma silent_makedirs_or_raise p : silent (makedirs_or_raise p).
Proof.
  unfold makedirs_or_raise. apply silent_bind; [apply silent_get_fs|intros t].
  destruct (makedirs t p); [apply silent_set_fs|apply silent_raise].
Qed.

Lemma silent_make_dir p : silent (make_dir p).
Proof.
  unfold make_dir. apply silent_bind; [apply silent_get_fs|intros t].
  destruct (exists_ t p); [apply silent_ret|apply silent_makedirs_or_raise].
Qed.

Lemma silent_move_to src real_dst dst : silent (move_to src real_dst dst).
Proof.
  unfold move_to. apply silent_bind; [apply silent_get_fs|intros t].
  destruct (os_rename t src real_dst); [apply silent_set_fs|].
  destruct (get t src) as [[| | |es]|]; try apply silent_raise.
  destruct (is_prefix src dst); [apply silent_raise|].
  apply silent_bind; [apply silent_makedirs_or_raise|intros _].
  apply silent_bind; [apply silent_get_fs|intros t1].
  destruct (copy_fresh src real_dst (Dir es)) as [[v|] errs];
    [|apply silent_raise].
  destruct (put t1 real_dst v) as [t2|]; [|apply silent_raise].
  apply silent_bind; [apply silent_set_fs|intros _].
  destruct errs; [|apply silent_raise].
  destruct (remove t2 src); [apply silent_set_fs|apply silent_raise].
Qed.

Lemma silent_shutil_move src dst : silent (shutil_move src dst).
Proof.
  unfold shutil_move. apply silent_bind; [apply silent_get_fs|intros t].
  destruct (isdir t dst); [|apply silent_move_to].
  destruct (path_eqb src dst); [apply silent_ret|].
  destruct (exists_ t (dst ++ [basename src]));
    [apply silent_raise|apply silent_move_to].
Qed.

Lemma silent_copytree_into ignore t src dst es :
  silent (copytree_into ignore t src dst es).
Proof.
  unfold copytree_into. apply silent_bind; [apply silent_get_fs|intros t1].
  destruct (copytree_node ignore t src dst (Dir es) (get t1 dst)) as [[v|] errs];
    [|apply silent_raise].
  destruct (put t1 dst v); [|apply silent_raise].
  apply silent_bind; [apply silent_set_fs|intros _].
  destruct errs; [apply silent_ret|apply silent_raise].
Qed.

Lemma silent_shutil_copytree ignore src dst :
  silent (shutil_copytree ignore src dst).
Proof.
  unfold shutil_copytree. apply silent_bind; [apply silent_get_fs|intros t].
  destruct (get t src) as [[| | |es]|]; try apply silent_raise.
  apply silent_bind; [|intros _; apply silent_copytree_into].
  destruct (get t dst) as [[| | |]|];
    try apply silent_raise; [apply silent_ret|apply silent_makedirs_or_raise].
Qed.

Lemma silent_write_file p data : silent (write_file p data).
Proof.
  unfold write_file. apply silent_bind; [apply silent_get_fs|intros t].
  destruct (get t p) as [[| | |]|]; try apply silent_raise;
    (destruct p; destruct (get t (parent _)) as [[| | |]|];
     try apply silent_raise;
     destruct (put t _ (File data)); [apply silent_set_fs|apply silent_raise]).
Qed.

(** ** What the executor logs *)

Lemma migration_steps_log now e b f s r s1 :
  migration_steps now e b f s = (r, s1) ->
  (log s1 = log s ++ [LogInfo (msg_moving e b)]
   /\ match r with Ok _ => False | Raise _ => True end)
  \/ log s1 = log s ++ [LogInfo (msg_moving e b); LogInfo (msg_copying b f)].
Proof.
  rewrite migration_steps_unfold. unfold bind at 1.
  destruct (shutil_move e b (logged (LogInfo (msg_moving e b)) s))
    as [[[]|x] s0] eqn:Em.
  - apply silent_shutil_move in Em. simpl in Em.
    unfold steps_after_move. unfold bind at 1.
    destruct (make_dir f s0) as [[[]|x] s2] eqn:Ek.
    + apply silent_make_dir in Ek. unfold bind at 1. unfold emit at 1.
      intros H. right.
      assert (Hs : silent (shutil_copytree ignore_sockets b f ;;;
                           write_file (f ++ [marker_name])
                             (marker_text e b f now) ;;; ret true)).
      { apply silent_bind; [apply silent_shutil_copytree|intros _].
        apply silent_bind; [apply silent_write_file|intros _].
        apply silent_ret. }
      apply Hs in H. rewrite H. simpl. rewrite Ek, Em.
      now rewrite <- app_assoc.
    + apply silent_make_dir in Ek. intros H. inversion H; subst.
      left. split; [congruence|exact I].
  - apply silent_shutil_move in Em. intros H. inversion H; subst.
    left. split; [exact Em|exact I].
Qed.

(** The log of the executor: on success its two informational lines and
    nothing else; on failure the first line, the second one if the failure
    came after the target directory was made, and then the error.  The
    executor shows no dialog and no message box. *)
Theorem perform_migration_log :
  forall now (e b f : path) s,
  exists v s' l,
    perform_migration now e b f s = (Ok v, s')
    /\ log s' = log s ++ l
    /\ (if v : bool then
          l = [LogInfo (msg_moving e b); LogInfo (msg_copying b f)]
        else
          exists x,
            l = [LogInfo (msg_moving e b); LogError "Migration failed" x]
            \/ l = [LogInfo (msg_moving e b); LogInfo (msg_copying b f);
                    LogError "Migration failed" x]).
Proof.
  intros now e b f s.
  destruct (perform_migration_cases now e b f s)
    as [(s' & Hs & H)|(x & s' & Hs & H)]; rewrite H.
  - apply migration_steps_log in Hs. destruct Hs as [[_ []]|Hl].
    exists true, s', [LogInfo (msg_moving e b); LogInfo (msg_copying b f)].
    auto.
  - apply migration_steps_log in Hs. destruct Hs as [[Hl _]|Hl].
    + eexists false, _, _. split; [reflexivity|]. simpl. rewrite Hl.
      rewrite <- app_assoc. split; [reflexivity|]. exists x. left. reflexivity.
    + eexists false, _, _. split; [reflexivity|]. simpl. rewrite Hl.
      rewrite <- app_assoc. split; [reflexivity|]. exists x. right. reflexivity.
Qed.

(** ** A backup path that is taken by a file *)

Lemma makedirs_existing (p : path) : forall t c,
  get t p = Some c -> makedirs t p = None.
Proof.
  induction p as [|n q IH]; intros t c H; [reflexivity|].
  simpl in H. destruct t as [| | |es]; try discriminate. simpl.
  destruct (assoc n es) as [c'|]; [|discriminate].
  destruct q as [|m q']; [reflexivity|].
  now rewrite (IH c' c H).
Qed.

Lemma os_rename_onto_nondir t (e b : path) es c :
  get t e = Some (Dir es) -> get t b = Some c ->
  match c with Dir _ => False | _ => True end ->
  exists why, os_rename t e b = Raise why.
Proof.
  intros He Hb Hc. unfold os_rename. rewrite He, Hb.
  destruct b as [|m b0]; [eauto|].
  destruct (get t (parent (m :: b0))) as [[| | |]|]; eauto.
  destruct (path_eqb e (m :: b0)) eqn:Eq.
  - apply path_eqb_eq in Eq. subst e. rewrite He in Hb. inversion Hb; subst c.
    contradiction.
  - destruct (is_prefix e (m :: b0)); [eauto|].
    destruct c; try contradiction; eauto.
Qed.

Lemma shutil_move_onto_nondir (e b : path) s es c :
  get (fs s) e = Some (Dir es) -> get (fs s) b = Some c ->
  match c with Dir _ => False | _ => True end ->
  exists x, shutil_move e b s = (Raise x, s).
Proof.
  intros He Hb Hc. unfold shutil_move. mrun.
  assert (Hd : isdir (fs s) b = false).
  { unfold isdir. rewrite Hb. destruct c; auto; contradiction. }
  rewrite Hd. unfold move_to. mrun.
  destruct (os_rename_onto_nondir _ _ _ _ _ He Hb Hc) as [why Hr].
  rewrite Hr, He.
  destruct (is_prefix e b); [eexists; reflexivity|].
  mrun. unfold makedirs_or_raise. mrun.
  rewrite (makedirs_existing b _ _ Hb). mrun. eexists; reflexivity.
Qed.

(** When the source is a directory and the backup path is taken by
    something that is not a directory, the migration fails at the move: it
    returns [False], logs the error, and leaves the file system exactly as
    it was. *)
Theorem perform_migration_backup_path_taken :
  forall now (e b f : path) s es c,
    get (fs s) e = Some (Dir es) -> get (fs s) b = Some c ->
    match c with Dir _ => False | _ => True end ->
    exists x,
      perform_migration now e b f s
      = (Ok false,
         mkState (fs s)
           (log s ++ [LogInfo (msg_moving e b); LogError "Migration failed" x])).
Proof.
  intros now e b f s es c He Hb Hc.
  destruct (shutil_move_onto_nondir e b (logged (LogInfo (msg_moving e b)) s)
              es c He Hb Hc) as [x Hx].
  exists x. unfold perform_migration, try_except, try_catch.
  rewrite migration_steps_unfold. unfold bind. rewrite Hx.
  unfold is_Exception. mrun. simpl. now rewrite <- app_assoc.
Qed.

Lemma perform_migration_backup_path_taken_witness :
  exists x,
    perform_migration clock_marker old_dir new_dir ["home"; "plain"]
      (mkState (Dir [("home", Dir [(".electrum", Dir wallet_with_sockets);
                                   (".factwallet", File "taken")])]) [])
    = (Ok false,
       mkState (Dir [("home", Dir [(".electrum", Dir wallet_with_sockets);
                                   (".factwallet", File "taken")])])
         ([] ++ [LogInfo (msg_moving old_dir new_dir);
                 LogError "Migration failed" x])).
Proof.
  apply (perform_migration_backup_path_taken clock_marker old_dir new_dir
           ["home"; "plain"]
           (mkState (Dir [("home", Dir [(".electrum", Dir wallet_with_sockets);
                                        (".factwallet", File "taken")])]) [])
           wallet_with_sockets (File "taken")).
  - reflexivity.
  - reflexivity.
  - exact I.
Defined.

(** ** The later steps write under the target only *)










(** ** When the move succeeds *)

Lemma remove_some (e : path) : forall t c,
  get t e = Some c -> e <> [] -> exists t1, remove t e = Some t1.
Proof.
  induction e as [|n e IH]; intros t c H He; [congruence|].
  simpl in H. destruct t as [| | |es]; try discriminate.
  destruct (assoc n es) as [c'|] eqn:Ea; [|discriminate]. simpl. rewrite Ea.
  destruct e as [|m e']; [eauto|].
  destruct (IH c' c H) as [c1 Hc1]; [discriminate|]. rewrite Hc1. eauto.
Qed.

Lemma put_some (p : path) : forall t v,
  dir_at t (parent p) -> p <> [] -> exists t', put t p v = Some t'.
Proof.
  induction p as [|n q IH]; intros t v [ds Hd] Hp; [congruence|].
  destruct q as [|m q'].
  - simpl in Hd. inversion Hd; subst. simpl.
    destruct (assoc n ds); eauto.
  - change (parent (n :: m :: q')) with (n :: parent (m :: q')) in Hd.
    simpl in Hd. destruct t as [| | |es]; try discriminate.
    destruct (assoc n es) as [c|] eqn:Ea; [|discriminate].
    destruct (IH c v) as [c' Hc']; [exists ds; exact Hd|discriminate|].
    change (put (Dir es) (n :: m :: q') v)
      with (match (match assoc n es with
                   | Some c0 => put c0 (m :: q') v
                   | None => None
                   end) with
            | Some c0 => Some (Dir (upsert n c0 es))
            | None => None
            end).
    rewrite Ea, Hc'. eauto.
Qed.


Lemma remove_keeps_dir (e : path) : forall q t t',
  remove t e = Some t' -> is_prefix e q = false ->
  dir_at t q -> dir_at t' q.
Proof.
  induction e as [|n e IH]; intros q t t' Hr Hp [ds Hq]; [discriminate|].
  simpl in Hr. destruct t as [| | |es]; try discriminate.
  destruct q as [|m q].
  { destruct e as [|k e]; destruct (assoc n es) as [c|]; try discriminate.
    - inversion Hr. eexists; reflexivity.
    - destruct (remove c (k :: e)); inversion Hr. eexists; reflexivity. }
  simpl in Hp, Hq.
  destruct (String.eqb n m) eqn:E; simpl in Hp.
  - apply String.eqb_eq in E. subst m.
    destruct e as [|k e]; [discriminate|].
    destruct (assoc n es) as [c|] eqn:Ea; [|discriminate].
    destruct (remove c (k :: e)) as [c'|] eqn:Er; [|discriminate].
    inversion Hr; subst.
    destruct (IH q c c' Er Hp (ex_intro _ ds Hq)) as [ds' Hd'].
    exists ds'. simpl. now rewrite assoc_upsert_same.
  - assert (Em : String.eqb m n = false) by now apply eqb_sym_false.
    exists ds. destruct e as [|k e].
    + destruct (assoc n es); [|discriminate]. inversion Hr; subst. simpl.
      now rewrite assoc_delete_other.
    + destruct (assoc n es) as [c|]; [|discriminate].
      destruct (remove c (k :: e)) as [c'|]; [|discriminate].
      inversion Hr; subst. simpl. now rewrite assoc_upsert_other.
Qed.

Lemma put_keeps_dir (p : path) : forall q t v t',
  put t p v = Some t' -> is_prefix p q = false ->
  dir_at t q -> dir_at t' q.
Proof.
  induction p as [|n p IH]; intros q t v t' Hp Hq [ds Hd]; [discriminate|].
  simpl in Hp. destruct t as [| | |es]; try discriminate.
  destruct (match assoc n es with
            | Some c => put c p v
            | None => match p with [] => Some v | _ :: _ => None end
            end) as [c'|] eqn:Ec; [|discriminate].
  inversion Hp; subst. destruct q as [|m q]; [eexists; reflexivity|].
  simpl in Hq, Hd.
  destruct (String.eqb n m) eqn:E; simpl in Hq.
  - apply String.eqb_eq in E. subst m.
    destruct (assoc n es) as [c|] eqn:Ea; [|discriminate].
    destruct (IH q c v c' Ec Hq (ex_intro _ ds Hd)) as [ds' Hd'].
    exists ds'. simpl. now rewrite assoc_upsert_same.
  - exists ds. simpl. rewrite assoc_upsert_other by now apply eqb_sym_false.
    exact Hd.
Qed.

Lemma is_prefix_app_r (e : path) : forall p l,
  is_prefix e p = true -> is_prefix e (p ++ l) = true.
Proof.
  induction e as [|n e IH]; intros p l H; [reflexivity|].
  destruct p as [|m p]; [discriminate|]. simpl in *.
  apply andb_true_iff in H. destruct H as [E H]. rewrite E. simpl. auto.
Qed.

Lemma not_prefix_parent (e b : path) :
  is_prefix e b = false -> is_prefix e (parent b) = false.
Proof.
  intros H. destruct b as [|m b0] eqn:Eb; [exact H|]. rewrite <- Eb in *.
  destruct (is_prefix e (parent b)) eqn:E; [|reflexivity].
  assert (Hb : b = parent b ++ [last b ""]).
  { apply app_removelast_last. rewrite Eb. discriminate. }
  rewrite Hb, (is_prefix_app_r _ _ _ E) in H. discriminate.
Qed.

Lemma apart_nonempty_l (p q : path) : apart p q = true -> p <> [].
Proof. destruct p; simpl; congruence. Qed.


(** ** A failure after the move is not rolled back *)



(** ** When the migration succeeds *)




Lemma makedirs_some (f : path) : forall t,
  dir_at t (parent f) -> get t f = None -> f <> [] ->
  exists t', makedirs t f = Some t'.
Proof.
  induction f as [|n q IH]; intros t [ds Hd] Hf Hne; [congruence|].
  destruct q as [|m q'].
  - simpl in Hd. inversion Hd; subst. simpl in *.
    destruct (assoc n ds); [discriminate|eauto].
  - change (parent (n :: m :: q')) with (n :: parent (m :: q')) in Hd.
    simpl in Hd. destruct t as [| | |es]; try discriminate.
    destruct (assoc n es) as [c|] eqn:Ea; [|discriminate].
    assert (Hc : get c (m :: q') = None).
    { change (get (Dir es) (n :: m :: q'))
        with (match assoc n es with
              | Some c0 => get c0 (m :: q')
              | None => None
              end) in Hf.
      now rewrite Ea in Hf. }
    destruct (IH c (ex_intro _ ds Hd) Hc) as [c' Hc']; [discriminate|].
    change (makedirs (Dir es) (n :: m :: q'))
      with (match assoc n es with
            | Some c0 =>
                match makedirs c0 (m :: q') with
                | Some c1 => Some (Dir (upsert n c1 es))
                | None => None
                end
            | None =>
                match makedirs (Dir []) (m :: q') with
                | Some c1 => Some (Dir (upsert n c1 es))
                | None => None
                end
            end).
    rewrite Ea, Hc'. eauto.
Qed.




Lemma make_dir_succeeds (f : path) s :
  get (fs s) f = None -> dir_at (fs s) (parent f) -> f <> [] ->
  exists s2, make_dir f s = (Ok tt, s2).
Proof.
  intros Hf Hd Hne. unfold make_dir, exists_. mrun. rewrite Hf.
  unfold makedirs_or_raise. mrun.
  destruct (makedirs_some f (fs s) Hd Hf Hne) as [t' Ht']. rewrite Ht'.
  mrun. eauto.
Qed.







(** ** The orchestrator once the old data is found *)


Lemma check_for_migration_found json_load user_dir old_user_dir c when now
  (opts : dict) s (f e : path) :
  custom_data_dir opts = false ->
  locate_dirs user_dir old_user_dir opts (dict_get opts "portable" (PBool false)) s
  = (Ok (f, Some e), s) ->
  exists_ (fs s) f = false ->
  is_factwallet_data json_load e s = (Ok true, s) ->
  check_for_migration json_load false user_dir old_user_dir c when now
    (Some opts) s
  = match run_migration c when now e f (logged (LogInfo (msg_found e)) s) with
    | (Ok _, s') => (Ok tt, s')
    | (Raise x, s') => (Raise x, s')
    end.
Proof.
  intros Hc HL Hf Hd. unfold check_for_migration.
  unfold custom_data_dir in Hc. rewrite Hc. mrun. rewrite HL. mrun. rewrite Hf.
  assert (He : exists_ (fs s) e = true).
  { destruct (exists_ (fs s) e) eqn:Ee; [reflexivity|].
    rewrite (detector_no_directory _ _ _ Ee) in Hd. discriminate. }
  rewrite He. change (negb true) with false. mrun. rewrite Hd. mrun.
  unfold msg_found, logged.
  destruct (run_migration c when now e f _) as [[v|x] s']; reflexivity.
Qed.

(** With the old data found and the new directory absent, a user who
    declines gets a normal return: the file system is untouched, and the log
    has the line about the data found, the dialog, and the line about the
    skip. *)
Theorem check_for_migration_declined :
  forall json_load user_dir old_user_dir when now (opts : dict) s (f e : path),
    custom_data_dir opts = false ->
    locate_dirs user_dir old_user_dir opts
      (dict_get opts "portable" (PBool false)) s = (Ok (f, Some e), s) ->
    exists_ (fs s) f = false ->
    is_factwallet_data json_load e s = (Ok true, s) ->
    check_for_migration json_load false user_dir old_user_dir Skip when now
      (Some opts) s
    = (Ok tt,
       mkState (fs s)
         (log s ++ [LogInfo (msg_found e); Prompt e f;
                    LogInfo "User skipped migration"])).
Proof.
  intros json_load user_dir old_user_dir when now opts s f e Hc HL Hf Hd.
  rewrite (check_for_migration_found _ _ _ _ _ _ _ _ _ _ Hc HL Hf Hd).
  rewrite run_migration_skip. simpl. now rewrite <- !app_assoc.
Qed.

Lemma check_for_migration_declined_witness :
  check_for_migration Loader.json_load_text false new_dir (Some old_dir) Skip
    clock_dialog clock_marker (Some [])
    (mkState (home_with_config config_mainnet) [])
  = (Ok tt,
     mkState (home_with_config config_mainnet)
       ([] ++ [LogInfo (msg_found old_dir); Prompt old_dir new_dir;
               LogInfo "User skipped migration"])).
Proof.
  apply (check_for_migration_declined Loader.json_load_text new_dir
           (Some old_dir) clock_dialog clock_marker []
           (mkState (home_with_config config_mainnet) []) new_dir old_dir).
  - reflexivity.
  - reflexivity.
  - reflexivity.
  - vm_compute. reflexivity.
Defined.

(** With the old data found and the new directory absent, a failure of
    the executor after the user consented leaves [check_for_migration] as
    an exception: the critical box is shown, the error is logged, and the
    file system is as the executor left it. *)
Theorem check_for_migration_failure_propagates :
  forall json_load user_dir old_user_dir when now (opts : dict) s (f e : path) s2,
    custom_data_dir opts = false ->
    locate_dirs user_dir old_user_dir opts
      (dict_get opts "portable" (PBool false)) s = (Ok (f, Some e), s) ->
    exists_ (fs s) f = false ->
    is_factwallet_data json_load e s = (Ok true, s) ->
    perform_migration now e (dialog_backup_dir e when) f
      (prompted e f (logged (LogInfo (msg_found e)) s)) = (Ok false, s2) ->
    check_for_migration json_load false user_dir old_user_dir Migrate when now
      (Some opts) s
    = (Raise (PlainException "Error during wallet migration"),
       mkState (fs s2)
         (log s2 ++ [CriticalBox "Migration Failed";
                     LogError "Error during migration"
                       (PlainException "Error during wallet migration")])).
Proof.
  intros json_load user_dir old_user_dir when now opts s f e s2 Hc HL Hf Hd Hp.
  rewrite (check_for_migration_found _ _ _ _ _ _ _ _ _ _ Hc HL Hf Hd).
  rewrite run_migration_migrate, Hp. simpl. now rewrite <- !app_assoc.
Qed.

Lemma check_for_migration_failure_propagates_witness :
  let s := mkState (Dir [("home", Dir [(".electrum",
                 Dir [("config", File config_mainnet); ("lockfile", Dangling)])])])
             [] in
  let s2 := snd (perform_migration clock_marker old_dir
                   (dialog_backup_dir old_dir clock_dialog) new_dir
                   (prompted old_dir new_dir (logged (LogInfo (msg_found old_dir)) s))) in
  check_for_migration Loader.json_load_text false new_dir (Some old_dir) Migrate
    clock_dialog clock_marker (Some []) s
  = (Raise (PlainException "Error during wallet migration"),
     mkState (fs s2)
       (log s2 ++ [CriticalBox "Migration Failed";
                   LogError "Error during migration"
                     (PlainException "Error during wallet migration")])).
Proof.
  apply (check_for_migration_failure_propagates Loader.json_load_text new_dir
           (Some old_dir) clock_dialog clock_marker [] _ new_dir old_dir).
  - reflexivity.
  - reflexivity.
  - reflexivity.
  - vm_compute. reflexivity.
  - vm_compute. reflexivity.
Defined.





(** ** A source that is a regular file *)

Lemma shutil_move_direct_any (e b : path) s c :
  get (fs s) e = Some c -> get (fs s) b = None ->
  apart e b = true -> dir_at (fs s) (parent b) ->
  exists t1 t2,
    remove (fs s) e = Some t1 /\ put t1 b c = Some t2
    /\ shutil_move e b s = (Ok tt, mkState t2 (log s)).
Proof.
  intros He Hb Ha [ds Hd].
  destruct (remove_some e (fs s) _ He (apart_nonempty_l _ _ Ha)) as [t1 Ht1].
  destruct (put_some b t1 c) as [t2 Ht2].
  { apply (remove_keeps_dir e (parent b) (fs s) t1 Ht1).
    - apply not_prefix_parent. now apply apart_not_prefix.
    - exists ds. exact Hd. }
  { now apply apart_nonempty_r in Ha. }
  exists t1, t2. split; [exact Ht1|]. split; [exact Ht2|].
  unfold shutil_move. mrun. unfold isdir. rewrite Hb. unfold move_to. mrun.
  assert (Hr : os_rename (fs s) e b = Ok t2).
  { unfold os_rename. rewrite He, Hb, Hd.
    rewrite (apart_not_eq _ _ Ha), (apart_not_prefix _ _ Ha), Ht1, Ht2.
    destruct b; [now apply apart_nonempty_r in Ha|]. destruct c; reflexivity. }
  rewrite Hr. reflexivity.
Qed.

(** Called on a source that is a regular file, with free backup and target
    paths under existing directories, the executor does not refuse at once:
    it moves the file to the backup path, makes the target directory, and
    fails only at the copy, with the error that the backup is not a
    directory.  It returns [False] with the file at the backup path, nothing
    at the source path, and an empty target directory. *)
Theorem perform_migration_of_a_regular_file :
  forall now (e b f : path) s d,
    get (fs s) e = Some (File d) ->
    get (fs s) b = None -> dir_at (fs s) (parent b) ->
    get (fs s) f = None -> dir_at (fs s) (parent f) ->
    apart e b = true -> apart e f = true -> apart b f = true ->
    exists s',
      perform_migration now e b f s = (Ok false, s')
      /\ get (fs s') b = Some (File d)
      /\ get (fs s') e = None
      /\ get (fs s') f = Some (Dir [])
      /\ log s' = log s ++ [LogInfo (msg_moving e b); LogInfo (msg_copying b f);
                            LogError "Migration failed" (OSError ENOTDIR b)].
Proof.
  intros now e b f s d He Hb Hpb Hf Hpf Heb Hef Hbf.
  assert (Hfb : apart f b = true) by now rewrite apart_sym.
  assert (Hfe : apart f e = true) by now rewrite apart_sym.
  assert (Hbe : apart b e = true) by now rewrite apart_sym.
  destruct (shutil_move_direct_any e b (logged (LogInfo (msg_moving e b)) s)
              (File d) He Hb Heb Hpb) as (t1 & t2 & Hrm & Hput & Hmove).
  set (s1 := mkState t2 (log (logged (LogInfo (msg_moving e b)) s))) in *.
  assert (Hb1 : get (fs s1) b = Some (File d)).
  { unfold s1. simpl. now apply get_put_same in Hput. }
  assert (He1 : get (fs s1) e = None).
  { unfold s1. simpl. rewrite (get_put_apart b e t1 _ _ Hbe Hput).
    now apply get_remove_same in Hrm. }
  assert (Hf1 : get (fs s1) f = None).
  { unfold s1. simpl. rewrite (get_put_apart b f t1 _ _ Hbf Hput).
    now rewrite (get_remove_apart e f (fs s) t1 Hef Hrm). }
  assert (Hpf1 : dir_at (fs s1) (parent f)).
  { unfold s1. simpl. apply (put_keeps_dir b (parent f) t1 _ t2 Hput).
    - apply not_prefix_parent. now apply apart_not_prefix.
    - apply (remove_keeps_dir e (parent f) (fs s) t1 Hrm); [|exact Hpf].
      apply not_prefix_parent. now apply apart_not_prefix. }
  destruct (make_dir_succeeds f s1 Hf1 Hpf1 (apart_nonempty_l _ _ Hfb))
    as [s2 Hmd].
  destruct (make_dir_fresh f s1 s2 Hf1 Hmd) as (Hf2 & Hq2 & Hl2).
  set (s2' := logged (LogInfo (msg_copying b f)) s2).
  assert (Hcp : shutil_copytree ignore_sockets b f s2'
                = (Raise (OSError ENOTDIR b), s2')).
  { assert (Hg : get (fs s2') b = Some (File d)).
    { unfold s2'. simpl. rewrite (Hq2 b Hfb). exact Hb1. }
    unfold shutil_copytree. mrun. rewrite Hg. reflexivity. }
  eexists. split.
  - unfold perform_migration, try_except, try_catch.
    rewrite migration_steps_unfold. unfold bind at 1. rewrite Hmove.
    unfold steps_after_move. unfold bind at 1. rewrite Hmd.
    unfold bind at 1. unfold emit at 1.
    change (mkState (fs s2) (log s2 ++ [LogInfo (msg_copying b f)])) with s2'.
    unfold bind at 1. rewrite Hcp. unfold is_Exception. mrun. reflexivity.
  - simpl. rewrite (Hq2 b Hfb), (Hq2 e Hfe).
    split; [exact Hb1|]. split; [exact He1|]. split; [exact Hf2|].
    rewrite Hl2. unfold s1. simpl. now rewrite <- !app_assoc.
Qed.

Lemma perform_migration_of_a_regular_file_witness :
  exists s',
    perform_migration clock_marker ["home"; "wallet.dat"] backup_ex new_dir
      (mkState (Dir [("home", Dir [("wallet.dat", File "seed")])]) [])
    = (Ok false, s')
    /\ get (fs s') backup_ex = Some (File "seed")
    /\ get (fs s') ["home"; "wallet.dat"] = None
    /\ get (fs s') new_dir = Some (Dir [])
    /\ log s' = [] ++ [LogInfo (msg_moving ["home"; "wallet.dat"] backup_ex);
                       LogInfo (msg_copying backup_ex new_dir);
                       LogError "Migration failed" (OSError ENOTDIR backup_ex)].
Proof.
  apply (perform_migration_of_a_regular_file clock_marker
           ["home"; "wallet.dat"] backup_ex new_dir
           (mkState (Dir [("home", Dir [("wallet.dat", File "seed")])]) [])).
  - reflexivity.
  - reflexivity.
  - eexists. vm_compute. reflexivity.
  - reflexivity.
  - eexists. vm_compute. reflexivity.
  - reflexivity.
  - reflexivity.
  - reflexivity.
Defined.

(** ** Portable mode *)



(** ** A dangling link in the source *)





(** ** A migration is done once *)




(** ** A failed migration is not offered again *)


